(** * Price engine (services/price-engine/main.cpp): a shallow embedding

    The C++ [double] is Rocq's primitive binary64 [float]; the IEEE
    operations and comparisons are the kernel's, and facts about all floats
    go through their specification over [spec_float].  [int] and
    [long long] are [Z] with the two's-complement wrap written out.
    [std::string] is [string], [std::vector] is [list], the [std::map] of
    arc multipliers is an association list read with the semantics of
    [operator[]], and [chrono::system_clock::time_point] is a [Z].

    The random engine and its distributions ([<random>]) and [log10]
    ([<cmath>]) are library code: they are parameters of the development.
    Console output is not modelled. *)

From Stdlib Require Import ZArith List String Bool Lia.
From Stdlib Require Import Floats.
Import ListNotations.

Set Warnings "-inexact-float".

(** ** Machine integers *)

Definition wrap_int (z : Z) : Z := ((z + 2 ^ 31) mod 2 ^ 32 - 2 ^ 31)%Z.
Definition wrap_long_long (z : Z) : Z := ((z + 2 ^ 63) mod 2 ^ 64 - 2 ^ 63)%Z.
Definition to_size_t (z : Z) : Z := (z mod 2 ^ 64)%Z.

(** The conversion of an integer to [double] (round to nearest even). *)
Definition double_of_Z (z : Z) : float :=
  SF2Prim (binary_normalize prec emax z 0 false).

(** ** [std::max] and [std::min] on [double]

    [std::max(a, b)] is [(a < b) ? b : a] and [std::min(a, b)] is
    [(b < a) ? b : a]: a NaN first argument is returned as it is. *)

Definition cpp_max (a b : float) : float := if (a <? b)%float then b else a.
Definition cpp_min (a b : float) : float := if (b <? a)%float then b else a.

Definition time_point := Z.

(** ** struct Character (main.cpp:36-64) *)

Module Character.
Record t := mk {
  id : Z;
  name : string;
  crew : string;
  bounty : Z;
  current_price : float;
  base_growth_rate : float;
  volatility : float;
  story_multiplier : float;
  sentiment_score : float;
  weekly_change : float;
  story_phase : Z;
  is_trending : bool;
  last_update : time_point
}.

(** The constructor; [now] is the reading of the system clock. *)
Definition new (id : Z) (name crew : string) (bounty : Z)
    (growth_rate : float) (now : time_point) : t :=
  {| id := id; name := name; crew := crew; bounty := bounty;
     current_price := 0.0;
     base_growth_rate := growth_rate;
     volatility := 0.3;
     story_multiplier := 1.0;
     sentiment_score := 0.5;
     weekly_change := 0.0;
     story_phase := 1;
     is_trending := false;
     last_update := now |}.

(** The three assignments of the update loop (main.cpp:251-260). *)
Definition set_price (c : t) (p w : float) (now : time_point) : t :=
  {| id := id c; name := name c; crew := crew c; bounty := bounty c;
     current_price := p;
     base_growth_rate := base_growth_rate c;
     volatility := volatility c;
     story_multiplier := story_multiplier c;
     sentiment_score := sentiment_score c;
     weekly_change := w;
     story_phase := story_phase c;
     is_trending := is_trending c;
     last_update := now |}.
End Character.

(** ** struct MarketData (main.cpp:67-85) *)

Module MarketData.
Record t := mk {
  total_volume : float;
  market_cap : float;
  active_traders : Z;
  volatility_index : float;
  current_year : Z;
  days_elapsed : Z;
  market_sentiment : float;
  major_event_active : bool;
  current_arc : string;
  last_update : time_point
}.

Definition new (now : time_point) : t :=
  {| total_volume := 0.0; market_cap := 0.0;
     active_traders := 1000; volatility_index := 0.5;
     current_year := 1; days_elapsed := 0;
     market_sentiment := 0.5; major_event_active := false;
     current_arc := "East Blue Saga";
     last_update := now |}.

Definition set_days (m : t) (d y : Z) : t :=
  {| total_volume := total_volume m; market_cap := market_cap m;
     active_traders := active_traders m;
     volatility_index := volatility_index m;
     current_year := y; days_elapsed := d;
     market_sentiment := market_sentiment m;
     major_event_active := major_event_active m;
     current_arc := current_arc m;
     last_update := last_update m |}.

Definition set_major_event_active (m : t) (b : bool) : t :=
  {| total_volume := total_volume m; market_cap := market_cap m;
     active_traders := active_traders m;
     volatility_index := volatility_index m;
     current_year := current_year m; days_elapsed := days_elapsed m;
     market_sentiment := market_sentiment m;
     major_event_active := b;
     current_arc := current_arc m;
     last_update := last_update m |}.

Definition set_current_arc (m : t) (a : string) : t :=
  {| total_volume := total_volume m; market_cap := market_cap m;
     active_traders := active_traders m;
     volatility_index := volatility_index m;
     current_year := current_year m; days_elapsed := days_elapsed m;
     market_sentiment := market_sentiment m;
     major_event_active := major_event_active m;
     current_arc := a;
     last_update := last_update m |}.

Definition set_last_update (m : t) (now : time_point) : t :=
  {| total_volume := total_volume m; market_cap := market_cap m;
     active_traders := active_traders m;
     volatility_index := volatility_index m;
     current_year := current_year m; days_elapsed := days_elapsed m;
     market_sentiment := market_sentiment m;
     major_event_active := major_event_active m;
     current_arc := current_arc m;
     last_update := now |}.
End MarketData.

(** ** The arc table (constructor, main.cpp:141-161)

    [story_arcs] and [story_arc_multipliers] are filled by the constructor
    and never assigned again. *)

Definition story_arcs : list string :=
  [ "East Blue Saga"; "Alabasta Saga"; "Sky Island Saga";
    "Water 7 Saga"; "Thriller Bark Saga"; "Summit War Saga";
    "Fish-Man Island Saga"; "Dressrosa Saga"; "Zou Saga";
    "Whole Cake Island Saga"; "Wano Country Saga"; "Final Saga" ]%string.

Definition story_arc_multipliers : list (string * float) :=
  [ ("East Blue Saga", 1.0); ("Alabasta Saga", 1.5);
    ("Sky Island Saga", 1.3); ("Water 7 Saga", 2.0);
    ("Thriller Bark Saga", 1.4); ("Summit War Saga", 3.0);
    ("Fish-Man Island Saga", 1.6); ("Dressrosa Saga", 2.2);
    ("Zou Saga", 1.8); ("Whole Cake Island Saga", 2.5);
    ("Wano Country Saga", 4.0); ("Final Saga", 5.0) ]%string%float.

(** [m[k]] of a [std::map<string, double>]: the mapped value, and [0.0]
    (a value-initialised entry, which [operator[]] also inserts) for a key
    that is absent.  The inserted entry maps to the same [0.0], so no later
    [m[k]] can tell the insertion. *)
Fixpoint map_index (m : list (string * float)) (k : string) : float :=
  match m with
  | [] => 0.0%float
  | (k', v) :: m' => if String.eqb k' k then v else map_index m' k
  end.

(** [story_arcs[i]] for an index in range. *)
Definition vector_index (v : list string) (i : Z) : string :=
  nth (Z.to_nat i) v EmptyString.

(** ** PriceEngine::getStoryMultiplier (main.cpp:358-373) *)

Definition getStoryMultiplier (md : MarketData.t) (c : Character.t) : float :=
  let base_multiplier := map_index story_arc_multipliers (MarketData.current_arc md) in
  if String.eqb (MarketData.current_arc md) "Summit War Saga"
     && String.eqb (Character.name c) "Monkey D. Luffy"
  then (base_multiplier * 2.0)%float
  else if String.eqb (MarketData.current_arc md) "Wano Country Saga"
          && String.eqb (Character.name c) "Monkey D. Luffy"
  then (base_multiplier * 3.0)%float
  else if String.eqb (MarketData.current_arc md) "Wano Country Saga"
          && String.eqb (Character.name c) "Kaido"
  then (base_multiplier * 2.5)%float
  else base_multiplier.

(** ** The percentage change recorded by the update loop (main.cpp:254-258)

    [old_price > 0] is the IEEE comparison [0 < old_price]. *)

Definition percent_change (old_price new_price : float) : float :=
  if (0 <? old_price)%float
  then (((new_price - old_price) / old_price) * 100.0)%float
  else if (0 <? new_price)%float then 100.0%float else 0.0%float.

(** The clamp at the end of the price model (main.cpp:327-328). *)
Definition clamp_price (p : float) : float :=
  cpp_min (cpp_max p 0.01%float) 10000.0%float.

(** Crew popularity bonus (main.cpp:306-311). *)
Definition crew_factor_of (crew : string) : float :=
  if String.eqb crew "Straw Hat Pirates" then 1.2%float
  else if String.eqb crew "Beast Pirates" || String.eqb crew "Big Mom Pirates"
       then 1.15%float
       else 1.0%float.

(** Major event boost (main.cpp:314). *)
Definition event_factor_of (md : MarketData.t) : float :=
  if MarketData.major_event_active md then 1.5%float else 1.0%float.

(** ** Threads of the engine

    A [std::thread] member is default-constructed (not joinable), then runs
    its loop, and is joined by [stopPriceCalculation].  [Body k] is a thread
    that passed its [while (running)] test: the price thread then holds
    [data_mutex] and is about to update character number [k]; the story
    thread is in its 30 second sleep, its locked block still to come. *)

Inductive thread_pc :=
| NotStarted
| LoopHead
| Body (k : nat)
| Finished
| Joined.

Definition joinable (t : thread_pc) : bool :=
  match t with
  | NotStarted | Joined => false
  | _ => true
  end.

Definition holds_mutex (t : thread_pc) : bool :=
  match t with
  | Body _ => true
  | _ => false
  end.

(** The caller of [startPriceCalculation] / [stopPriceCalculation]: idle,
    or inside [stopPriceCalculation] waiting in one of its two joins. *)
Inductive caller_pc :=
| Idle
| JoiningCalculation
| JoiningStory.

(** Replace element [k] of a vector. *)
Fixpoint replace_nth {A : Type} (k : nat) (x : A) (l : list A) : list A :=
  match l, k with
  | [], _ => []
  | _ :: l', O => x :: l'
  | y :: l', S k' => y :: replace_nth k' x l'
  end.

(** ** What the engine takes from the C++ library

    [rng] is the state of [gen] together with that of the three
    distribution objects; a call on a distribution returns the value drawn
    and the state after the call.  [log10] is that of [<cmath>]. *)

Record Runtime := {
  rng : Type;
  price_volatility : rng -> float * rng;  (* normal_distribution(0.0, 1.0) *)
  event_chance : rng -> float * rng;      (* uniform_real_distribution(0.0, 1.0) *)
  growth_factor : rng -> float * rng;     (* uniform_real_distribution(0.8, 1.5) *)
  gen_call : rng -> Z * rng;              (* gen() *)
  log10 : float -> float
}.

Section Engine.

Variable R : Runtime.

(** *** State passing for the generator *)

Definition Rand (A : Type) : Type := rng R -> A * rng R.
Definition ret {A : Type} (a : A) : Rand A := fun g => (a, g).
Definition bind {A B : Type} (m : Rand A) (k : A -> Rand B) : Rand B :=
  fun g => let (a, g') := m g in k a g'.

Notation "x <- m ;; k" := (bind m (fun x => k))
  (at level 61, m at next level, right associativity).

(** Bounty influence (main.cpp:300-303); [character.bounty + 1] is a
    [long long] addition, converted to [double] for [log10]. *)
Definition bounty_factor_of (b : Z) : float :=
  if (b >? 0)%Z
  then (1.0 + log10 R (double_of_Z (wrap_long_long (b + 1))) * 0.02)%float
  else 1.0%float.

(** *** PriceEngine::calculateNewPrice (main.cpp:280-331)

    It reads [character], [market_data] and the arc table, and draws from
    [gen]: once from [price_volatility] in every call, and once from
    [growth_factor] when the price is zero. *)
Definition calculateNewPrice (md : MarketData.t) (character : Character.t)
  : Rand float :=
  let current_price := Character.current_price character in
  let base_growth :=
    if (current_price <? 10.0)%float
    then (Character.base_growth_rate character * 2.0)%float
    else Character.base_growth_rate character in
  let story_multiplier := getStoryMultiplier md character in
  let time_factor := (1.0 + base_growth * story_multiplier)%float in
  z <- price_volatility R ;;
  let volatility_swing := (z * Character.volatility character)%float in
  let volatility_factor := (1.0 + volatility_swing)%float in
  let bounty_factor := bounty_factor_of (Character.bounty character) in
  let crew_factor := crew_factor_of (Character.crew character) in
  let event_factor := event_factor_of md in
  new_price <-
    (if (current_price =? 0.0)%float
     then u <- growth_factor R ;; ret (u * 0.5)%float
     else ret (current_price * time_factor * volatility_factor *
               bounty_factor * crew_factor * event_factor)%float) ;;
  ret (clamp_price new_price).

(** *** The body of the loop over the characters (main.cpp:247-263) *)
Definition update_character (md : MarketData.t) (now : time_point)
    (character : Character.t) : Rand Character.t :=
  let old_price := Character.current_price character in
  new_price <- calculateNewPrice md character ;;
  ret (Character.set_price character new_price
         (percent_change old_price new_price) now).

(** The loop itself, when nothing else writes [market_data] meanwhile;
    [clk k] is the clock reading taken for character number [k]. *)
Fixpoint update_characters (md : MarketData.t) (clk : nat -> time_point)
    (k : nat) (cs : list Character.t) : Rand (list Character.t) :=
  match cs with
  | [] => ret []
  | c :: cs' =>
      c' <- update_character md (clk k) c ;;
      cs'' <- update_characters md clk (S k) cs' ;;
      ret (c' :: cs'')
  end.

(** *** The engine *)

Record PriceEngine := mkEngine {
  characters : list Character.t;
  market_data : MarketData.t;
  running : bool;
  calculation_thread : thread_pc;
  story_progression_thread : thread_pc;
  gen : rng R;
  current_arc_index : Z;
  (** detached deactivation threads that are still asleep (main.cpp:388-391) *)
  pending_resets : nat;
  (** where the thread that starts and stops the engine is *)
  caller : caller_pc
}.

(** The constructor (main.cpp:134-166); [seed] is the state [gen] gets
    from [rd()]. *)
Definition PriceEngine_new (seed : rng R) (now : time_point) : PriceEngine :=
  {| characters := [];
     market_data :=
       MarketData.set_current_arc (MarketData.new now) (vector_index story_arcs 0);
     running := false;
     calculation_thread := NotStarted;
     story_progression_thread := NotStarted;
     gen := seed;
     current_arc_index := 0;
     pending_resets := 0;
     caller := Idle |}.

Definition with_characters (e : PriceEngine) (cs : list Character.t) : PriceEngine :=
  {| characters := cs; market_data := market_data e; running := running e;
     calculation_thread := calculation_thread e;
     story_progression_thread := story_progression_thread e;
     gen := gen e; current_arc_index := current_arc_index e;
     pending_resets := pending_resets e; caller := caller e |}.

Definition with_market_data (e : PriceEngine) (md : MarketData.t) : PriceEngine :=
  {| characters := characters e; market_data := md; running := running e;
     calculation_thread := calculation_thread e;
     story_progression_thread := story_progression_thread e;
     gen := gen e; current_arc_index := current_arc_index e;
     pending_resets := pending_resets e; caller := caller e |}.

Definition with_running (e : PriceEngine) (b : bool) : PriceEngine :=
  {| characters := characters e; market_data := market_data e; running := b;
     calculation_thread := calculation_thread e;
     story_progression_thread := story_progression_thread e;
     gen := gen e; current_arc_index := current_arc_index e;
     pending_resets := pending_resets e; caller := caller e |}.

Definition with_calculation_thread (e : PriceEngine) (t : thread_pc) : PriceEngine :=
  {| characters := characters e; market_data := market_data e; running := running e;
     calculation_thread := t;
     story_progression_thread := story_progression_thread e;
     gen := gen e; current_arc_index := current_arc_index e;
     pending_resets := pending_resets e; caller := caller e |}.

Definition with_story_thread (e : PriceEngine) (t : thread_pc) : PriceEngine :=
  {| characters := characters e; market_data := market_data e; running := running e;
     calculation_thread := calculation_thread e;
     story_progression_thread := t;
     gen := gen e; current_arc_index := current_arc_index e;
     pending_resets := pending_resets e; caller := caller e |}.

Definition with_gen (e : PriceEngine) (g : rng R) : PriceEngine :=
  {| characters := characters e; market_data := market_data e; running := running e;
     calculation_thread := calculation_thread e;
     story_progression_thread := story_progression_thread e;
     gen := g; current_arc_index := current_arc_index e;
     pending_resets := pending_resets e; caller := caller e |}.

Definition with_arc_index (e : PriceEngine) (i : Z) : PriceEngine :=
  {| characters := characters e; market_data := market_data e; running := running e;
     calculation_thread := calculation_thread e;
     story_progression_thread := story_progression_thread e;
     gen := gen e; current_arc_index := i;
     pending_resets := pending_resets e; caller := caller e |}.

Definition with_pending_resets (e : PriceEngine) (n : nat) : PriceEngine :=
  {| characters := characters e; market_data := market_data e; running := running e;
     calculation_thread := calculation_thread e;
     story_progression_thread := story_progression_thread e;
     gen := gen e; current_arc_index := current_arc_index e;
     pending_resets := n; caller := caller e |}.

Definition with_caller (e : PriceEngine) (c : caller_pc) : PriceEngine :=
  {| characters := characters e; market_data := market_data e; running := running e;
     calculation_thread := calculation_thread e;
     story_progression_thread := story_progression_thread e;
     gen := gen e; current_arc_index := current_arc_index e;
     pending_resets := pending_resets e; caller := c |}.

(** *** PriceEngine::loadCharacters (main.cpp:176-203) *)
Definition loadCharacters (clk : nat -> time_point) (e : PriceEngine) : PriceEngine :=
  with_characters e
    (characters e ++
     [ Character.new 1 "Monkey D. Luffy" "Straw Hat Pirates" 3000000000 0.15 (clk 0%nat);
       Character.new 2 "Roronoa Zoro" "Straw Hat Pirates" 1111000000 0.12 (clk 1%nat);
       Character.new 3 "Nami" "Straw Hat Pirates" 366000000 0.08 (clk 2%nat);
       Character.new 4 "Usopp" "Straw Hat Pirates" 500000000 0.07 (clk 3%nat);
       Character.new 5 "Sanji" "Straw Hat Pirates" 1032000000 0.11 (clk 4%nat);
       Character.new 6 "Tony Tony Chopper" "Straw Hat Pirates" 1000 0.06 (clk 5%nat);
       Character.new 7 "Nico Robin" "Straw Hat Pirates" 930000000 0.10 (clk 6%nat);
       Character.new 8 "Franky" "Straw Hat Pirates" 394000000 0.09 (clk 7%nat);
       Character.new 9 "Brook" "Straw Hat Pirates" 383000000 0.08 (clk 8%nat);
       Character.new 10 "Jinbe" "Straw Hat Pirates" 1100000000 0.13 (clk 9%nat);
       Character.new 11 "Kaido" "Beast Pirates" 4611100000 0.20 (clk 10%nat);
       Character.new 12 "Big Mom" "Big Mom Pirates" 4388000000 0.18 (clk 11%nat);
       Character.new 13 "Blackbeard" "Blackbeard Pirates" 3996000000 0.25 (clk 12%nat);
       Character.new 14 "Doflamingo" "Donquixote Pirates" 340000000 0.14 (clk 13%nat);
       Character.new 15 "Akainu" "Marines" 0 0.16 (clk 14%nat);
       Character.new 16 "Kizaru" "Marines" 0 0.15 (clk 15%nat);
       Character.new 17 "Aokiji" "Marines" 0 0.14 (clk 16%nat) ]).

(** *** PriceEngine::calculatePrices, one iteration (main.cpp:234-276) *)

(** Lines 239-243: the day counter and the year. *)
Definition advance_day (md : MarketData.t) : MarketData.t :=
  let d := wrap_int (MarketData.days_elapsed md + 1) in
  let y := if (Z.rem d 365 =? 0)%Z
           then wrap_int (MarketData.current_year md + 1)
           else MarketData.current_year md in
  MarketData.set_days md d y.

(** PriceEngine::triggerMajorEvent (main.cpp:375-392): sets the flag,
    draws the index of the message from [gen] and detaches a thread that
    clears the flag after ten seconds. *)
Definition triggerMajorEvent (e : PriceEngine) : PriceEngine :=
  let e1 := with_market_data e
              (MarketData.set_major_event_active (market_data e) true) in
  let (_, g') := gen_call R (gen e1) in
  with_pending_resets (with_gen e1 g') (S (pending_resets e1)).

(** Lines 266-271: the random event and the time stamp. *)
Definition finish_iteration (now : time_point) (e : PriceEngine) : PriceEngine :=
  let (x, g') := event_chance R (gen e) in
  let e1 := with_gen e g' in
  let e2 := if (x <? 0.1)%float then triggerMajorEvent e1 else e1 in
  with_market_data e2 (MarketData.set_last_update (market_data e2) now).

(** The locked block of one iteration as a whole, for an iteration during
    which no deactivation thread wakes up. *)
Definition calculatePrices_iteration (clk : nat -> time_point)
    (e : PriceEngine) : PriceEngine :=
  let e1 := with_market_data e (advance_day (market_data e)) in
  let (cs, g') := update_characters (market_data e1) clk 0 (characters e1) (gen e1) in
  let e2 := with_gen (with_characters e1 cs) g' in
  finish_iteration (clk (List.length (characters e))) e2.

(** *** PriceEngine::progressStory, the locked block (main.cpp:338-354)

    [current_arc_index < story_arcs.size() - 1] compares an [int] with a
    [size_t]: the index is converted to unsigned. *)
Definition progressStory_block (e : PriceEngine) : PriceEngine :=
  let md := market_data e in
  if ((MarketData.days_elapsed md >? 0)
      && (Z.rem (MarketData.days_elapsed md) 100 =? 0))%Z
  then
    if (to_size_t (current_arc_index e)
        <? to_size_t (Z.of_nat (List.length story_arcs) - 1))%Z
    then
      let i := wrap_int (current_arc_index e + 1) in
      let md1 := MarketData.set_current_arc md (vector_index story_arcs i) in
      with_market_data (with_arc_index e i)
        (MarketData.set_major_event_active md1 true)
    else e
  else e.

(** The detached thread of [triggerMajorEvent] waking up (main.cpp:390). *)
Definition reset_event (e : PriceEngine) : PriceEngine :=
  with_pending_resets
    (with_market_data e (MarketData.set_major_event_active (market_data e) false))
    (pred (pending_resets e)).

(** *** The steps of the running engine

    Each event is one atomic step of one thread.  [data_mutex] makes the
    locked blocks of the two loops exclude each other; the deactivation
    threads take no lock, so one may wake between two characters of an
    iteration of the price loop. *)
Inductive event :=
| EStart                          (* startPriceCalculation, 206-215 *)
| EStopBegin                      (* stopPriceCalculation, 218 *)
| EStopJoinCalculation            (* 220-222 *)
| EStopJoinStory                  (* 223-225 *)
| ECalcLoop                       (* 234-243: the loop test, the lock, the day *)
| ECalcCharacter (now : time_point) (* 247-263 for the next character *)
| ECalcFinish (now : time_point)  (* 266-275 *)
| EStoryLoop                      (* 335-336: the loop test, then the sleep *)
| EStoryBlock                     (* 338-354 *)
| EResetEvent.                    (* 389-390 in a detached thread *)

Definition step (e : PriceEngine) (ev : event) : option PriceEngine :=
  match ev with
  | EStart =>
      match caller e with
      | Idle =>
          if running e then Some e
          else if joinable (calculation_thread e)
                  || joinable (story_progression_thread e)
          then None (* assigning to a joinable thread terminates the program *)
          else Some (with_story_thread
                       (with_calculation_thread (with_running e true) LoopHead)
                       LoopHead)
      | _ => None
      end
  | EStopBegin =>
      match caller e with
      | Idle => Some (with_caller (with_running e false) JoiningCalculation)
      | _ => None
      end
  | EStopJoinCalculation =>
      match caller e with
      | JoiningCalculation =>
          match calculation_thread e with
          | Finished =>
              Some (with_caller (with_calculation_thread e Joined) JoiningStory)
          | NotStarted | Joined => Some (with_caller e JoiningStory)
          | _ => None (* join blocks *)
          end
      | _ => None
      end
  | EStopJoinStory =>
      match caller e with
      | JoiningStory =>
          match story_progression_thread e with
          | Finished => Some (with_caller (with_story_thread e Joined) Idle)
          | NotStarted | Joined => Some (with_caller e Idle)
          | _ => None
          end
      | _ => None
      end
  | ECalcLoop =>
      match calculation_thread e with
      | LoopHead =>
          if running e
          then Some (with_calculation_thread
                       (with_market_data e (advance_day (market_data e)))
                       (Body 0))
          else Some (with_calculation_thread e Finished)
      | _ => None
      end
  | ECalcCharacter now =>
      match calculation_thread e with
      | Body k =>
          match nth_error (characters e) k with
          | Some c =>
              let (c', g') := update_character (market_data e) now c (gen e) in
              Some (with_calculation_thread
                      (with_gen (with_characters e (replace_nth k c' (characters e))) g')
                      (Body (S k)))
          | None => None
          end
      | _ => None
      end
  | ECalcFinish now =>
      match calculation_thread e with
      | Body k =>
          if Nat.eqb k (List.length (characters e))
          then Some (with_calculation_thread (finish_iteration now e) LoopHead)
          else None
      | _ => None
      end
  | EStoryLoop =>
      match story_progression_thread e with
      | LoopHead =>
          if running e
          then Some (with_story_thread e (Body 0))
          else Some (with_story_thread e Finished)
      | _ => None
      end
  | EStoryBlock =>
      match story_progression_thread e with
      | Body _ =>
          if holds_mutex (calculation_thread e) then None
          else Some (with_story_thread (progressStory_block e) LoopHead)
      | _ => None
      end
  | EResetEvent =>
      match pending_resets e with
      | O => None
      | S _ => Some (reset_event e)
      end
  end.

Fixpoint run (evs : list event) (e : PriceEngine) : option PriceEngine :=
  match evs with
  | [] => Some e
  | ev :: evs' =>
      match step e ev with
      | Some e' => run evs' e'
      | None => None
      end
  end.

End Engine.

Arguments characters {R} _.
Arguments market_data {R} _.
Arguments running {R} _.
Arguments calculation_thread {R} _.
Arguments story_progression_thread {R} _.
Arguments gen {R} _.
Arguments current_arc_index {R} _.
Arguments pending_resets {R} _.
Arguments caller {R} _.
Arguments mkEngine {R} _ _ _ _ _ _ _ _ _.

(** ** Predicates used in the statements *)

(** The closed interval of the clamp. *)
Definition price_in_range (p : float) : bool :=
  ((0.01 <=? p) && (p <=? 10000.0))%float.

(** A price is zero (not yet seeded) or in the interval of the clamp. *)
Definition price_ok (p : float) : bool :=
  ((p =? 0.0) || price_in_range p)%float.

(** The documented range of the first price. *)
Definition in_bootstrap_range (p : float) : bool :=
  ((0.40 <=? p) && (p <=? 0.75))%float.

(** A roster entry with an ordinary configuration: growth rate and
    volatility in [[0, 1]], and a bounty that is not negative and whose
    successor is still a [long long]. *)
Definition sane_character (c : Character.t) : bool :=
  ((0.0 <=? Character.base_growth_rate c)%float
   && (Character.base_growth_rate c <=? 1.0)%float
   && (0.0 <=? Character.volatility c)%float
   && (Character.volatility c <=? 1.0)%float
   && (0 <=? Character.bounty c)%Z
   && (Character.bounty c <? 2 ^ 63 - 1)%Z).

(** What the statements ask of the library: a draw of the normal
    distribution is a number of magnitude at most [1e100]; a draw of
    [growth_factor] lies between its bounds; [log10] of an integer from 1
    to [2^63] lies between 0 and 19. *)
Definition normal_draws_bounded (R : Runtime) : Prop :=
  forall g, (abs (fst (price_volatility R g)) <=? 1e100)%float = true.

Definition growth_draws_in_range (R : Runtime) : Prop :=
  forall g, (0.8 <=? fst (growth_factor R g))%float = true
            /\ (fst (growth_factor R g) <=? 1.5)%float = true.

Definition log10_bounded (R : Runtime) : Prop :=
  forall n : Z, (1 <= n < 2 ^ 63)%Z ->
    (0.0 <=? log10 R (double_of_Z n))%float = true
    /\ (log10 R (double_of_Z n) <=? 19.0)%float = true.

Definition runtime_ok (R : Runtime) : Prop :=
  normal_draws_bounded R /\ growth_draws_in_range R /\ log10_bounded R.

(** The Event Trigger never fires. *)
Definition no_random_event (R : Runtime) : Prop :=
  forall g, (fst (event_chance R g) <? 0.1)%float = false.

(** ** Binary64: the shapes used to bound intermediate results *)

Definition is_nanb (x : spec_float) : bool :=
  match x with S754_nan => true | _ => false end.

(** A zero, or a finite number whose exponent is at most [k]. *)
Definition fin_le (k : Z) (x : spec_float) : Prop :=
  match x with
  | S754_zero _ => True
  | S754_finite _ _ e => (e <= k)%Z
  | _ => False
  end.

Definition fbound (k : Z) (x : float) : Prop := fin_le k (Prim2SF x).

Definition two52 : positive := 4503599627370496.

(** ** The price model as the specification words it

    The growth factor is [1 + growth_rate * boost * arc_multiplier] with
    [boost] 2 below the threshold and 1 otherwise; the reputation factor is
    [1 + log10(reputation + 1) * k], and 1 for a reputation of 0; the group
    factor is a sparse table of bonus multipliers, 1 for a group without an
    entry; the active-event factor is a fixed multiplier when the flag is
    set and 1 otherwise; the product is clamped to an interval.  The
    specification leaves the constants open: the threshold (10), [k] (0.02),
    the bonuses (+20%, +15%, +15%), the event multiplier (1.5) and the
    interval are those of the code.  Nothing here is defined through the
    functions of the engine; the arc multiplier is the table with overrides
    of the next section. *)

Definition cold_start_threshold : float := 10.0.

Definition cold_start_boost (price : float) : float :=
  if (price <? cold_start_threshold)%float then 2.0%float else 1.0%float.

Definition reputation_factor (R : Runtime) (reputation : Z) : float :=
  if (reputation =? 0)%Z then 1.0%float
  else (1.0 + log10 R (double_of_Z (reputation + 1)) * 0.02)%float.

(** The group factor: a sparse table of bonus multipliers. *)
Definition group_bonus_table : list (string * float) :=
  [ ("Straw Hat Pirates", 1.2%float);
    ("Beast Pirates", 1.15%float);
    ("Big Mom Pirates", 1.15%float) ]%string.

Fixpoint group_factor_spec (t : list (string * float)) (group : string) : float :=
  match t with
  | [] => 1.0%float
  | (g, k) :: t' => if String.eqb g group then k else group_factor_spec t' group
  end.

(** The active-event factor. *)
Definition active_event_factor_spec (active : bool) : float :=
  if active then 1.5%float else 1.0%float.

(** Clamping to the interval from [lo] to [hi]: [lo] below it, [hi] above
    it, the value itself otherwise. *)
Definition clamp_to_interval (lo hi p : float) : float :=
  if (p <? lo)%float then lo
  else if (hi <? p)%float then hi
  else p.

Definition price_floor : float := 0.01.
Definition price_ceiling : float := 10000.0.

(** ** The arc multiplier as a base table with a sparse override table,
    keyed by (entity name, arc name) *)

Definition arc_overrides : list (string * string * float) :=
  [ ("Monkey D. Luffy", "Summit War Saga", 2.0%float);
    ("Monkey D. Luffy", "Wano Country Saga", 3.0%float);
    ("Kaido", "Wano Country Saga", 2.5%float) ]%string.

Fixpoint lookup_override (t : list (string * string * float))
    (entity arc : string) : option float :=
  match t with
  | [] => None
  | (n, a, k) :: t' =>
      if String.eqb n entity && String.eqb a arc then Some k
      else lookup_override t' entity arc
  end.

Definition arc_multiplier_spec (md : MarketData.t) (c : Character.t) : float :=
  let base := map_index story_arc_multipliers (MarketData.current_arc md) in
  match lookup_override arc_overrides (Character.name c) (MarketData.current_arc md) with
  | Some k => (base * k)%float
  | None => base
  end.

(** ** The whole price model of the specification

    [price_product_spec] is the product of the price and the five factors,
    [price_model_spec] its clamp. *)

Definition price_product_spec (R : Runtime) (md : MarketData.t) (c : Character.t)
    (gaussian_draw : float) : float :=
  let price := Character.current_price c in
  let growth :=
    (1.0 + Character.base_growth_rate c * cold_start_boost price
           * arc_multiplier_spec md c)%float in
  let vol := (1.0 + gaussian_draw * Character.volatility c)%float in
  (price * growth * vol * reputation_factor R (Character.bounty c)
   * group_factor_spec group_bonus_table (Character.crew c)
   * active_event_factor_spec (MarketData.major_event_active md))%float.

Definition price_model_spec (R : Runtime) (md : MarketData.t) (c : Character.t)
    (gaussian_draw : float) : float :=
  clamp_to_interval price_floor price_ceiling (price_product_spec R md c gaussian_draw).

(** ** Frame of the per-character update *)

Definition same_static_fields (c c' : Character.t) : Prop :=
  Character.id c' = Character.id c
  /\ Character.name c' = Character.name c
  /\ Character.crew c' = Character.crew c
  /\ Character.bounty c' = Character.bounty c
  /\ Character.base_growth_rate c' = Character.base_growth_rate c
  /\ Character.volatility c' = Character.volatility c
  /\ Character.story_multiplier c' = Character.story_multiplier c
  /\ Character.sentiment_score c' = Character.sentiment_score c
  /\ Character.story_phase c' = Character.story_phase c
  /\ Character.is_trending c' = Character.is_trending c.

(** ** Runs, schedules and price sequences *)

Definition prices {R : Runtime} (e : PriceEngine R) : list float :=
  map Character.current_price (characters e).

(** The prices of the registry after each update of a character. *)
Fixpoint price_trace (R : Runtime) (evs : list event) (e : PriceEngine R)
  : list (list float) :=
  match evs with
  | [] => []
  | ev :: evs' =>
      match step R e ev with
      | None => []
      | Some e' =>
          match ev with
          | ECalcCharacter _ => prices e' :: price_trace R evs' e'
          | _ => price_trace R evs' e'
          end
      end
  end.

(** Two events are the same step of the same thread; the clock readings
    they carry may differ. *)
Definition same_kind (a b : event) : bool :=
  match a, b with
  | EStart, EStart
  | EStopBegin, EStopBegin
  | EStopJoinCalculation, EStopJoinCalculation
  | EStopJoinStory, EStopJoinStory
  | ECalcLoop, ECalcLoop
  | ECalcCharacter _, ECalcCharacter _
  | ECalcFinish _, ECalcFinish _
  | EStoryLoop, EStoryLoop
  | EStoryBlock, EStoryBlock
  | EResetEvent, EResetEvent => true
  | _, _ => false
  end.

Fixpoint same_schedule (l1 l2 : list event) : bool :=
  match l1, l2 with
  | [], [] => true
  | a :: l1', b :: l2' => same_kind a b && same_schedule l1' l2'
  | _, _ => false
  end.

(** The iterations of the price loop that a schedule completes. *)
Definition ticks_completed (evs : list event) : nat :=
  List.length (filter (fun ev => match ev with ECalcFinish _ => true | _ => false end) evs).

(** An engine with its time stamps forgotten. *)
Definition forget_clock_character (c : Character.t) : Character.t :=
  Character.set_price c (Character.current_price c) (Character.weekly_change c) 0%Z.

Definition forget_clock {R : Runtime} (e : PriceEngine R) : PriceEngine R :=
  with_market_data R
    (with_characters R e (map forget_clock_character (characters e)))
    (MarketData.set_last_update (market_data e) 0%Z).

(** Both loop threads are finished and joined (or were never started). *)
Definition threads_stopped {R : Runtime} (e : PriceEngine R) : bool :=
  negb (joinable (calculation_thread e))
  && negb (joinable (story_progression_thread e)).

Definition is_start (ev : event) : bool :=
  match ev with EStart => true | _ => false end.

(** ** A scripted library, for concrete runs

    The generator state counts the calls; the normal draw is always [0.0],
    [growth_factor] always draws [1.0], and [event_chance] draws [0.05]
    (an event) in its first [events] calls and [0.5] afterwards. *)

Definition scripted_runtime (events : nat) : Runtime :=
  {| rng := nat * nat;
     price_volatility := fun g => (0.0%float, (S (fst g), snd g));
     event_chance := fun g =>
       ((if Nat.ltb (snd g) events then 0.05 else 0.5)%float, (fst g, S (snd g)));
     growth_factor := fun g => (1.0%float, (S (fst g), snd g));
     gen_call := fun g => (Z.of_nat (fst g), (S (fst g), snd g));
     log10 := fun _ => 9.0%float |}.

(** The engine as [main] has it before [startPriceCalculation]
    (main.cpp:460-463), every clock reading being 0. *)
Definition main_engine (R : Runtime) (seed : rng R) : PriceEngine R :=
  loadCharacters R (fun _ => 0%Z) (PriceEngine_new R seed 0%Z).

(** One whole iteration of the price loop over [n] characters, as events. *)
Definition tick_events (n : nat) : list event :=
  ECalcLoop :: repeat (ECalcCharacter 0%Z) n ++ [ECalcFinish 0%Z].

(** ** Invariants of the running engine *)

(** Every character has an ordinary configuration and a price that is zero
    or within the clamp, and the current arc is one of the table. *)
Definition engine_ok {R : Runtime} (e : PriceEngine R) : Prop :=
  Forall (fun c => sane_character c = true
                   /\ price_ok (Character.current_price c) = true)
         (characters e)
  /\ In (MarketData.current_arc (market_data e)) story_arcs.

(** The last position of the arc table. *)
Definition last_arc_index : Z := Z.of_nat (List.length story_arcs) - 1.

(** [startPriceCalculation], the story thread entering its sleep, and a
    hundred whole iterations of the price loop over the seventeen
    characters of [main]: the day counter then stands at 100. *)
Definition hundred_days : list event :=
  EStart :: EStoryLoop :: List.concat (repeat (tick_events 17) 100).

(** An event with its clock reading forgotten. *)
Definition forget_clock_event (ev : event) : event :=
  match ev with
  | ECalcCharacter _ => ECalcCharacter 0%Z
  | ECalcFinish _ => ECalcFinish 0%Z
  | _ => ev
  end.

(** While [stopPriceCalculation] waits in its second join the price thread
    is already joined, and while it runs at all [running] is false. *)
Definition stopping_ok {R : Runtime} (e : PriceEngine R) : Prop :=
  (caller e = JoiningStory -> joinable (calculation_thread e) = false)
  /\ (caller e <> Idle -> running e = false).

(** ** Two schedules of the engine of [main] with the scripted library

    The Event Trigger fires in the first iteration of the price loop.  In
    [late_reset] its deactivation thread wakes after the eleventh iteration,
    in [early_reset] after the tenth; both schedules complete twelve
    iterations. *)
Definition late_reset : list event :=
  EStart :: List.concat (repeat (tick_events 17) 11)
    ++ EResetEvent :: tick_events 17.

Definition early_reset : list event :=
  EStart :: List.concat (repeat (tick_events 17) 10)
    ++ EResetEvent :: tick_events 17 ++ tick_events 17.

(** One iteration of the price loop, then [stopPriceCalculation] from its
    first line to its return, each loop thread leaving at its next test. *)
Definition tick_then_stop : list event :=
  EStart :: tick_events 17
    ++ [EStopBegin; ECalcLoop; EStoryLoop; EStopJoinCalculation; EStopJoinStory].

(** ** PriceEngine::findCharacter (main.cpp:406-410)

    [find_if] returns the first character whose [id] is the one asked for;
    the pointer returned is modelled by the position in [characters], and
    the null pointer by [None]. *)
Fixpoint find_if_id (id : Z) (cs : list Character.t) (k : nat) : option nat :=
  match cs with
  | [] => None
  | c :: cs' =>
      if (Character.id c =? id)%Z then Some k else find_if_id id cs' (S k)
  end.

Definition findCharacter {R : Runtime} (e : PriceEngine R) (id : Z) : option nat :=
  find_if_id id (characters e) 0.

(** ** PriceEngine::printMarketSummary, the total (main.cpp:444-447)

    The sum of [current_price * 1000000] over the registry, in registry
    order, starting from 0. *)
Definition total_market_cap {R : Runtime} (e : PriceEngine R) : float :=
  fold_left (fun total c => (total + Character.current_price c * 1000000.0)%float)
            (characters e) 0.0%float.

(** ** The product of the factors other than the event factor
    (main.cpp:322-323), for the normal draw [z] *)
Definition price_before_event (R : Runtime) (md : MarketData.t) (c : Character.t)
    (z : float) : float :=
  (Character.current_price c
   * (1.0 + (if (Character.current_price c <? 10.0)%float
             then Character.base_growth_rate c * 2.0
             else Character.base_growth_rate c) * getStoryMultiplier md c)
   * (1.0 + z * Character.volatility c)
   * bounty_factor_of R (Character.bounty c)
   * crew_factor_of (Character.crew c))%float.

(** One iteration of the price loop as events, with the clock readings
    [clk]: the loop test, one update per character, the end of the locked
    block. *)
Definition iteration_events (clk : nat -> time_point) (n : nat) : list event :=
  ECalcLoop :: map (fun k => ECalcCharacter (clk k)) (seq 0 n) ++ [ECalcFinish (clk n)].

(** A [double] that is a zero, a positive finite number or plus infinity. *)
Definition nonnegative (x : spec_float) : Prop :=
  match x with
  | S754_zero _ => True
  | S754_finite s _ _ => s = false
  | S754_infinity s => s = false
  | S754_nan => False
  end.

(** The arc name of the market data is the arc at the index of the engine,
    and the index is a position of the arc table. *)
Definition arc_consistent {R : Runtime} (e : PriceEngine R) : Prop :=
  (0 <= current_arc_index e <= last_arc_index)%Z
  /\ MarketData.current_arc (market_data e)
     = vector_index story_arcs (current_arc_index e).

(** The simulated year is derived from the day counter. *)
Definition calendar_consistent (md : MarketData.t) : Prop :=
  (0 <= MarketData.days_elapsed md)%Z
  /\ MarketData.current_year md = (1 + MarketData.days_elapsed md / 365)%Z.

(** The caller is idle and the engine is stopped only with both loop
    threads not joinable; a price thread inside the locked block has not
    run past the end of the registry. *)
Definition threads_consistent {R : Runtime} (e : PriceEngine R) : Prop :=
  (caller e = Idle -> running e = false -> threads_stopped e = true)
  /\ (caller e = JoiningStory -> joinable (calculation_thread e) = false)
  /\ (caller e <> Idle -> running e = false)
  /\ (forall k, calculation_thread e = Body k -> (k <= List.length (characters e))%nat)
  /\ (running e = true ->
      joinable (calculation_thread e) = true
      /\ joinable (story_progression_thread e) = true).

(** The engine right after its constructor and any loading of characters:
    stopped, no thread started, the caller idle. *)
Definition fresh {R : Runtime} (e : PriceEngine R) : Prop :=
  running e = false /\ caller e = Idle
  /\ calculation_thread e = NotStarted
  /\ story_progression_thread e = NotStarted
  /\ pending_resets e = 0%nat
  /\ current_arc_index e = 0%Z
  /\ MarketData.current_arc (market_data e) = vector_index story_arcs 0
  /\ MarketData.days_elapsed (market_data e) = 0%Z
  /\ MarketData.current_year (market_data e) = 1%Z.

(** A thread that is not inside its loop. *)
Definition thread_done (t : thread_pc) : bool :=
  match t with
  | Finished | NotStarted | Joined => true
  | _ => false
  end.

(** The events by which the loops leave once [running] is cleared: the
    price thread finishes the iteration it is in and leaves at its next
    loop test, then the story thread does the same. *)
Definition drain_calculation {R : Runtime} (e : PriceEngine R) : list event :=
  match calculation_thread e with
  | LoopHead => [ECalcLoop]
  | Body k =>
      repeat (ECalcCharacter 0%Z) (List.length (characters e) - k)
        ++ [ECalcFinish 0%Z; ECalcLoop]
  | _ => []
  end.

Definition drain_story {R : Runtime} (e : PriceEngine R) : list event :=
  match story_progression_thread e with
  | LoopHead => [EStoryLoop]
  | Body _ => [EStoryBlock; EStoryLoop]
  | _ => []
  end.

(** [stopPriceCalculation] from its first line to its return, with the
    steps of the two loops it waits for. *)
Definition stop_events {R : Runtime} (e : PriceEngine R) : list event :=
  EStopBegin :: drain_calculation e ++ drain_story e
    ++ [EStopJoinCalculation; EStopJoinStory].

(** The number of deactivation threads that wake in a schedule. *)
Definition resets_fired (evs : list event) : nat :=
  List.length (filter (fun ev => match ev with EResetEvent => true | _ => false end) evs).

(** The step [ev] taken in [e] begins an iteration of the price loop: it is
    the loop test of the price thread, passed with [running] set, after
    which [days_elapsed] is incremented (main.cpp:234-239). *)
Definition begins_day {R : Runtime} (e : PriceEngine R) (ev : event) : bool :=
  match ev, calculation_thread e with
  | ECalcLoop, LoopHead => running e
  | _, _ => false
  end.

(** The number of iterations of the price loop begun in the run of [evs]
    from [e], that is, the number of times [days_elapsed++] is executed. *)
Fixpoint days_begun (R : Runtime) (evs : list event) (e : PriceEngine R) : nat :=
  match evs with
  | [] => 0
  | ev :: evs' =>
      match step R e ev with
      | Some e' => ((if begins_day e ev then 1 else 0) + days_begun R evs' e')%nat
      | None => 0
      end
  end.

(** * Binary64 arithmetic

    Facts about all [double]s, proved on the specification of the
    primitive operations. *)

Open Scope Z_scope.

Lemma SFcompare_antisym x y :
  SFcompare y x = option_map CompOpp (SFcompare x y).
Proof.
  destruct x as [sx|sx| |sx mx ex], y as [sy|sy| |sy my ey]; simpl;
    try reflexivity;
    try (destruct sx; reflexivity); try (destruct sy; reflexivity);
    try (destruct sx, sy; reflexivity).
  destruct sx, sy; simpl; try reflexivity;
    rewrite (Z.compare_antisym ex ey);
    destruct (ex ?= ey) eqn:E; simpl; try reflexivity;
    rewrite (Pos.compare_cont_antisym mx my Eq); reflexivity.
Qed.

Lemma SFcompare_nan_r x y : SFcompare x y = None -> is_nanb x = true \/ is_nanb y = true.
Proof.
  destruct x as [sx|sx| |sx mx ex], y as [sy|sy| |sy my ey]; simpl; auto; try discriminate.
Qed.

Lemma SFltb_false_leb x y :
  SFltb x y = false -> is_nanb x = false -> is_nanb y = false -> SFleb y x = true.
Proof.
  unfold SFltb, SFleb. intros H Hx Hy. rewrite (SFcompare_antisym x y).
  destruct (SFcompare x y) as [[]|] eqn:E; simpl; try reflexivity; try discriminate.
  apply SFcompare_nan_r in E. destruct E; congruence.
Qed.

Lemma is_nan_spec x : is_nan x = is_nanb (Prim2SF x).
Proof.
  unfold is_nan. rewrite eqb_spec. unfold SFeqb.
  destruct (Prim2SF x) as [s|s| |s m e]; simpl; try reflexivity.
  - destruct s; reflexivity.
  - destruct s; rewrite Z.compare_refl, Pos.compare_cont_refl; reflexivity.
Qed.

Lemma ltb_false_leb (x y : float) :
  (x <? y)%float = false -> is_nan x = false -> is_nan y = false -> (y <=? x)%float = true.
Proof.
  rewrite ltb_spec, leb_spec, !is_nan_spec. apply SFltb_false_leb.
Qed.

Lemma digits2_pos_size p : digits2_pos p = Pos.size p.
Proof. induction p; simpl; congruence. Qed.

Lemma digits2_pos_gt p : Zpos p < 2 ^ Zpos (digits2_pos p).
Proof.
  rewrite digits2_pos_size. pose proof (Pos.size_gt p) as H.
  rewrite <- Pos2Z.inj_pow. lia.
Qed.

Lemma digits2_pos_le p : 2 ^ (Zpos (digits2_pos p) - 1) <= Zpos p.
Proof.
  rewrite digits2_pos_size. pose proof (Pos.size_le p) as H.
  assert (2 ^ Zpos (Pos.size p) <= 2 * Zpos p) as H'.
  { rewrite <- Pos2Z.inj_pow. lia. }
  replace (Zpos (Pos.size p)) with (Z.succ (Zpos (Pos.size p) - 1)) in H' by lia.
  rewrite Z.pow_succ_r in H' by lia. lia.
Qed.

Lemma digits2_pos_bound p k : 0 <= k -> Zpos p < 2 ^ k -> Zpos (digits2_pos p) <= k.
Proof.
  intros Hk H. destruct (Z.le_gt_cases (Zpos (digits2_pos p)) k) as [|Hgt]; [assumption|].
  pose proof (digits2_pos_le p).
  assert (2 ^ k <= 2 ^ (Zpos (digits2_pos p) - 1)) by (apply Z.pow_le_mono_r; lia).
  lia.
Qed.

Lemma Zdigits2_gt m : 0 <= m -> m < 2 ^ Zdigits2 m.
Proof.
  destruct m; simpl; intros; try lia. apply digits2_pos_gt.
Qed.

Lemma Zdigits2_bound m k : 0 <= k -> 0 <= m < 2 ^ k -> Zdigits2 m <= k.
Proof.
  destruct m; simpl; intros; try lia. apply digits2_pos_bound; lia.
Qed.

Lemma shr_m_shr_1 mrs : 0 <= shr_m mrs -> shr_m (shr_1 mrs) = shr_m mrs / 2.
Proof.
  destruct mrs as [m r s]. simpl. intros H.
  rewrite <- Z.div2_div.
  destruct m as [|[p|p|]|p]; simpl; try reflexivity; lia.
Qed.

Lemma pow2_xO p : 2 ^ Zpos p~0 = 2 ^ Zpos p * 2 ^ Zpos p.
Proof.
  change (Zpos p~0) with (2 * Zpos p). apply Z.pow_twice_r.
Qed.

Lemma pow2_xI p : 2 ^ Zpos p~1 = 2 * (2 ^ Zpos p * 2 ^ Zpos p).
Proof.
  change (Zpos p~1) with (2 * Zpos p + 1).
  rewrite Z.pow_add_r, Z.pow_twice_r by lia. change (2 ^ 1) with 2.
  generalize (2 ^ Z.pos p). intro q. ring.
Qed.

Lemma shr_m_iter p : forall mrs, 0 <= shr_m mrs ->
  shr_m (iter_pos shr_1 p mrs) = shr_m mrs / 2 ^ Zpos p.
Proof.
  induction p as [p IH|p IH|]; intros mrs H; simpl iter_pos.
  - assert (0 <= shr_m (shr_1 mrs)) as H1.
    { rewrite shr_m_shr_1 by assumption. apply Z.div_pos; lia. }
    assert (0 <= shr_m (iter_pos shr_1 p (shr_1 mrs))) as H2.
    { rewrite IH by assumption. apply Z.div_pos; [assumption|]. apply Z.pow_pos_nonneg; lia. }
    rewrite IH, IH, shr_m_shr_1 by assumption.
    rewrite !Z.div_div by (try apply Z.pow_pos_nonneg; lia).
    f_equal. rewrite pow2_xI. generalize (2 ^ Z.pos p). intro q. ring.
  - assert (0 <= shr_m (iter_pos shr_1 p mrs)) as H2.
    { rewrite IH by assumption. apply Z.div_pos; [assumption|]. apply Z.pow_pos_nonneg; lia. }
    rewrite IH, IH by assumption.
    rewrite !Z.div_div by (try apply Z.pow_pos_nonneg; lia).
    f_equal. rewrite pow2_xO. reflexivity.
  - rewrite shr_m_shr_1 by assumption. reflexivity.
Qed.

Lemma shr_m_record_of_loc m l : shr_m (shr_record_of_loc m l) = m.
Proof. destruct l as [|[]]; reflexivity. Qed.

Lemma fexp_unfold e : fexp prec emax e = Z.max (e - 53) (-1074).
Proof. reflexivity. Qed.

Lemma shr_fexp_bound mx ex lx :
  0 <= mx ->
  0 <= shr_m (fst (shr_fexp prec emax mx ex lx)) < 2 ^ 53 /\
  snd (shr_fexp prec emax mx ex lx) = Z.max ex (fexp prec emax (Zdigits2 mx + ex)).
Proof.
  intros Hm. unfold shr_fexp, shr.
  pose proof (Zdigits2_gt mx Hm) as Hd.
  assert (0 <= Zdigits2 mx) as Hd0 by (destruct mx; simpl; lia).
  rewrite fexp_unfold.
  destruct (Z.max (Zdigits2 mx + ex - 53) (-1074) - ex) as [|q|q] eqn:E; simpl fst; simpl snd.
  - rewrite shr_m_record_of_loc. split; [|lia]. split; [assumption|].
    eapply Z.lt_le_trans; [exact Hd|]. apply Z.pow_le_mono_r; lia.
  - rewrite shr_m_iter by (rewrite shr_m_record_of_loc; assumption).
    rewrite shr_m_record_of_loc. split; [|lia]. split.
    + apply Z.div_pos; [assumption|]. apply Z.pow_pos_nonneg; lia.
    + apply Z.div_lt_upper_bound; [apply Z.pow_pos_nonneg; lia|].
      rewrite <- Z.pow_add_r by lia.
      eapply Z.lt_le_trans; [exact Hd|]. apply Z.pow_le_mono_r; lia.
  - rewrite shr_m_record_of_loc. split; [|lia]. split; [assumption|].
    eapply Z.lt_le_trans; [exact Hd|]. apply Z.pow_le_mono_r; lia.
Qed.

Lemma round_nearest_even_bound m l : m <= round_nearest_even m l <= m + 1.
Proof.
  destruct l as [|[]]; simpl; try lia. destruct (Z.even m); lia.
Qed.

Lemma binary_round_aux_fin s mx ex lx k :
  0 <= mx ->
  Z.max ex (fexp prec emax (Zdigits2 mx + ex)) + 1 <= k -> k <= 971 ->
  fin_le k (binary_round_aux prec emax s mx ex lx).
Proof.
  intros Hm Hk Hk'. unfold binary_round_aux.
  destruct (shr_fexp_bound mx ex lx Hm) as [[H1 H2] H3].
  destruct (shr_fexp prec emax mx ex lx) as [mrs' e'] eqn:E1. simpl in H1, H2, H3.
  pose proof (round_nearest_even_bound (shr_m mrs') (loc_of_shr_record mrs')) as Hr.
  set (m1 := round_nearest_even (shr_m mrs') (loc_of_shr_record mrs')) in *.
  assert (0 <= m1) as Hm1 by lia.
  destruct (shr_fexp_bound m1 e' loc_Exact Hm1) as [[H4 H5] H6].
  destruct (shr_fexp prec emax m1 e' loc_Exact) as [mrs'' e''] eqn:E2. simpl in H4, H5, H6.
  assert (Zdigits2 m1 <= 54) as Hd1.
  { apply Zdigits2_bound; [lia|]. change (2 ^ 54) with (2 * 2 ^ 53). lia. }
  rewrite fexp_unfold in *.
  destruct (shr_m mrs'') as [|m|m] eqn:E3.
  - exact I.
  - change (emax - prec) with 971.
    destruct (e'' <=? 971) eqn:E4; simpl.
    + lia.
    + apply Z.leb_gt in E4. lia.
  - lia.
Qed.

Lemma valid_digits s m e :
  valid_binary (S754_finite s m e) = true ->
  Zpos (digits2_pos m) <= 53 /\ -1074 <= e <= 971.
Proof.
  simpl. unfold bounded, canonical_mantissa. rewrite andb_true_iff, Z.eqb_eq, Z.leb_le.
  rewrite fexp_unfold. change (emax - prec) with 971. lia.
Qed.

Lemma SFmul_fin a b k x y :
  valid_binary x = true -> valid_binary y = true ->
  fin_le a x -> fin_le b y ->
  Z.max (a + b + 54) (-1073) <= k -> k <= 971 ->
  fin_le k (SFmul prec emax x y).
Proof.
  intros Vx Vy Hx Hy Hk Hk'.
  destruct x as [sx|sx| |sx mx ex], y as [sy|sy| |sy my ey]; simpl in Hx, Hy; try contradiction;
    try exact I.
  simpl SFmul. apply valid_digits in Vx, Vy.
  apply binary_round_aux_fin; [lia| |assumption].
  assert (Zdigits2 (Zpos (mx * my)) <= 106) as Hd.
  { apply Zdigits2_bound; [lia|]. split; [lia|].
    pose proof (digits2_pos_gt mx). pose proof (digits2_pos_gt my).
    assert (2 ^ Zpos (digits2_pos mx) <= 2 ^ 53) by (apply Z.pow_le_mono_r; lia).
    assert (2 ^ Zpos (digits2_pos my) <= 2 ^ 53) by (apply Z.pow_le_mono_r; lia).
    change (2 ^ 106) with (2 ^ 53 * 2 ^ 53). rewrite Pos2Z.inj_mul.
    apply Z.mul_lt_mono_nonneg; lia. }
  rewrite fexp_unfold. lia.
Qed.

Lemma iter_xO_value d : forall m, Zpos (Pos.iter xO m d) = Zpos m * 2 ^ Zpos d.
Proof.
  induction d as [d IH|d IH|]; intros m; simpl Pos.iter.
  - rewrite (Pos2Z.inj_xO (Pos.iter xO (Pos.iter xO m d) d)), IH, IH, pow2_xI.
    generalize (2 ^ Zpos d). intro q. ring.
  - rewrite IH, IH, pow2_xO. generalize (2 ^ Zpos d). intro q. ring.
  - change (2 ^ 1) with 2. lia.
Qed.

Lemma shl_align_value mx ex ez :
  ez <= ex ->
  Zpos (fst (shl_align mx ex ez)) = Zpos mx * 2 ^ (ex - ez) /\
  snd (shl_align mx ex ez) = ez.
Proof.
  intros H. unfold shl_align.
  destruct (ez - ex) as [|d|d] eqn:E; simpl fst; simpl snd.
  - replace (ex - ez) with 0 by lia. split; lia.
  - lia.
  - rewrite iter_xO_value. replace (ex - ez) with (Zpos d) by lia. split; lia.
Qed.

Lemma mul_lt_le n m p q : 0 <= n < m -> 0 < p <= q -> n * p < m * q.
Proof. nia. Qed.

Lemma binary_round_fin s m e k :
  fexp prec emax (Zpos (digits2_pos m) + e) + 1 <= k -> k <= 971 ->
  fin_le k (binary_round prec emax s m e).
Proof.
  intros Hk Hk'. unfold binary_round.
  set (e' := fexp prec emax (Zpos (digits2_pos m) + e)) in *.
  destruct (shl_align m e e') as [mz ez] eqn:E.
  apply binary_round_aux_fin; [lia| |assumption].
  destruct (Z.le_gt_cases e' e) as [Hle|Hgt].
  - destruct (shl_align_value m e e' Hle) as [Hv He]. rewrite E in Hv, He. cbn [fst snd] in Hv, He.
    subst ez.
    assert (Zdigits2 (Zpos mz) <= Zpos (digits2_pos m) + (e - e')) as Hd.
    { apply Zdigits2_bound; [lia|]. split; [lia|]. rewrite Hv.
      rewrite Z.pow_add_r by lia. apply Zmult_lt_compat_r.
      - apply Z.pow_pos_nonneg; lia.
      - apply digits2_pos_gt. }
    rewrite fexp_unfold. unfold e' in *. rewrite fexp_unfold in Hk, Hle, Hd |- *. lia.
  - unfold shl_align in E. destruct (e' - e) eqn:E'; try lia.
    injection E as <- <-. simpl Zdigits2. fold e'. lia.
Qed.

Lemma SFadd_fin a b k x y :
  valid_binary x = true -> valid_binary y = true ->
  fin_le a x -> fin_le b y ->
  Z.max a b + 2 <= k -> k <= 971 ->
  fin_le k (SFadd prec emax x y).
Proof.
  intros Vx Vy Hx Hy Hk Hk'.
  destruct x as [sx|sx| |sx mx ex], y as [sy|sy| |sy my ey]; simpl in Hx, Hy; try contradiction.
  - simpl. destruct sx, sy; exact I.
  - simpl. lia.
  - simpl. lia.
  - simpl SFadd. apply valid_digits in Vx, Vy.
    set (ez := Z.min ex ey).
    destruct (shl_align_value mx ex ez ltac:(unfold ez; lia)) as [Hvx _].
    destruct (shl_align_value my ey ez ltac:(unfold ez; lia)) as [Hvy _].
    set (X := Zpos (fst (shl_align mx ex ez))) in *.
    set (Y := Zpos (fst (shl_align my ey ez))) in *.
    set (M := cond_Zopp sx X + cond_Zopp sy Y).
    assert (Z.abs M < 2 ^ (Z.max ex ey + 54 - ez)) as HM.
    { assert (X < 2 ^ (Z.max ex ey + 53 - ez)) as HX.
      { rewrite Hvx.
        replace (Z.max ex ey + 53 - ez) with (53 + (Z.max ex ey - ez)) by lia.
        rewrite Z.pow_add_r by lia.
        assert (Zpos mx < 2 ^ 53).
        { eapply Z.lt_le_trans; [apply digits2_pos_gt|]. apply Z.pow_le_mono_r; lia. }
        assert (2 ^ (ex - ez) <= 2 ^ (Z.max ex ey - ez)) by (apply Z.pow_le_mono_r; lia).
        assert (0 < 2 ^ (ex - ez)) by (apply Z.pow_pos_nonneg; lia).
        apply mul_lt_le; lia. }
      assert (Y < 2 ^ (Z.max ex ey + 53 - ez)) as HY.
      { rewrite Hvy.
        replace (Z.max ex ey + 53 - ez) with (53 + (Z.max ex ey - ez)) by lia.
        rewrite Z.pow_add_r by lia.
        assert (Zpos my < 2 ^ 53).
        { eapply Z.lt_le_trans; [apply digits2_pos_gt|]. apply Z.pow_le_mono_r; lia. }
        assert (2 ^ (ey - ez) <= 2 ^ (Z.max ex ey - ez)) by (apply Z.pow_le_mono_r; lia).
        assert (0 < 2 ^ (ey - ez)) by (apply Z.pow_pos_nonneg; lia).
        apply mul_lt_le; lia. }
      replace (Z.max ex ey + 54 - ez) with (Z.succ (Z.max ex ey + 53 - ez)) by lia.
      rewrite Z.pow_succ_r by (unfold ez; lia).
      assert (0 < X) by (unfold X; lia). assert (0 < Y) by (unfold Y; lia).
      unfold M, cond_Zopp. clearbody X Y.
      generalize dependent (2 ^ (Z.max ex ey + 53 - ez)). intros q HX HY.
      destruct sx, sy; lia. }
    assert (forall s m, Zpos m = Z.abs M -> fin_le k (binary_round prec emax s m ez)) as Hfin.
    { intros s m Hm. apply binary_round_fin; [|assumption].
      assert (Zpos (digits2_pos m) <= Z.max ex ey + 54 - ez) as Hd.
      { apply digits2_pos_bound; [unfold ez; lia|]. rewrite Hm. exact HM. }
      rewrite fexp_unfold. lia. }
    unfold binary_normalize. fold ez. fold X. fold Y. fold M.
    destruct M as [|m|m] eqn:EM.
    + exact I.
    + apply Hfin. reflexivity.
    + apply Hfin. reflexivity.
Qed.

Lemma mul_two52 m : (m * two52)%positive = Pos.iter xO m 52.
Proof. rewrite Pos.mul_comm. reflexivity. Qed.

Lemma digits2_iter_xO d : forall m, Zpos (digits2_pos (Pos.iter xO m d)) = Zpos (digits2_pos m) + Zpos d.
Proof.
  induction d as [d IH|d IH|]; intros m; simpl Pos.iter.
  - cbn [digits2_pos]. rewrite Pos2Z.inj_succ, IH, IH. lia.
  - rewrite IH, IH. lia.
  - cbn [digits2_pos]. lia.
Qed.

Lemma digits2_mul_two52 m :
  Zpos (digits2_pos (m * two52)) = Zpos (digits2_pos m) + 52.
Proof. rewrite mul_two52. apply digits2_iter_xO. Qed.

Lemma shr_two52 m :
  iter_pos shr_1 52 (Build_shr_record (Zpos (m * two52)) false false)
  = Build_shr_record (Zpos m) false false.
Proof. rewrite mul_two52. vm_compute. reflexivity. Qed.

Lemma SFmul_finite sx mx ex sy my ey :
  SFmul prec emax (S754_finite sx mx ex) (S754_finite sy my ey)
  = binary_round_aux prec emax (xorb sx sy) (Zpos (mx * my)) (ex + ey) loc_Exact.
Proof. reflexivity. Qed.

Lemma SFmul_pow2 s m e k :
  fexp prec emax (Zpos (digits2_pos m) + (e + 52 + k)) = e + 52 + k ->
  e + 52 + k <= 971 ->
  SFmul prec emax (S754_finite s m e) (S754_finite false two52 k)
  = S754_finite s m (e + 52 + k).
Proof.
  intros Hc Hm. rewrite SFmul_finite, xorb_false_r.
  unfold binary_round_aux, shr_fexp.
  unfold Zdigits2 at 1. rewrite digits2_mul_two52.
  replace (Zpos (digits2_pos m) + 52 + (e + k)) with (Zpos (digits2_pos m) + (e + 52 + k)) by lia.
  rewrite Hc. replace (e + 52 + k - (e + k)) with 52 by lia.
  unfold shr at 1.
  change (shr_record_of_loc (Z.pos (m * two52)) loc_Exact)
    with (Build_shr_record (Z.pos (m * two52)) false false).
  rewrite shr_two52.
  cbn [shr_m loc_of_shr_record round_nearest_even fst snd].
  unfold Zdigits2. replace (e + k + 52) with (e + 52 + k) by lia. rewrite Hc.
  rewrite Z.sub_diag. cbn [shr shr_record_of_loc shr_m].
  change (emax - prec) with 971.
  apply Z.leb_le in Hm. rewrite Hm. reflexivity.
Qed.

Lemma valid_canonical s m e :
  valid_binary (S754_finite s m e) = true ->
  fexp prec emax (Zpos (digits2_pos m) + e) = e.
Proof.
  unfold valid_binary, bounded, canonical_mantissa.
  intros V. apply andb_true_iff in V. destruct V as [V _]. apply Z.eqb_eq in V. exact V.
Qed.

Lemma SFmul_one x :
  valid_binary x = true -> SFmul prec emax x (S754_finite false two52 (-52)) = x.
Proof.
  destruct x as [s|s| |s m e]; intros V.
  - cbn [SFmul]. rewrite xorb_false_r. reflexivity.
  - cbn [SFmul]. rewrite xorb_false_r. reflexivity.
  - reflexivity.
  - pose proof (valid_digits _ _ _ V) as [Hd He].
    pose proof (valid_canonical _ _ _ V) as Hc.
    rewrite SFmul_pow2.
    + f_equal. lia.
    + replace (e + 52 + -52) with e by lia. exact Hc.
    + lia.
Qed.

Lemma Prim2SF_one : Prim2SF 1 = S754_finite false two52 (-52).
Proof. reflexivity. Qed.

Lemma mul_one_r (x : float) : (x * 1)%float = x.
Proof.
  apply Prim2SF_inj. rewrite mul_spec, Prim2SF_one. apply SFmul_one. apply Prim2SF_valid.
Qed.

Lemma compare_cont_Eq m1 m2 : Pos.compare_cont Eq m1 m2 = (m1 ?= m2)%positive.
Proof. reflexivity. Qed.

Ltac cmp_cases :=
  repeat match goal with
  | |- context [Pos.compare_cont Eq ?a ?b] =>
      change (Pos.compare_cont Eq a b) with (Pos.compare a b)
  | H : context [Pos.compare_cont Eq ?a ?b] |- _ =>
      change (Pos.compare_cont Eq a b) with (Pos.compare a b) in H
  | |- context [(?a ?= ?b)%Z] => destruct (Z.compare_spec a b)
  | H : context [(?a ?= ?b)%Z] |- _ => destruct (Z.compare_spec a b)
  | |- context [(?a ?= ?b)%positive] => destruct (Pos.compare_spec a b)
  | H : context [(?a ?= ?b)%positive] |- _ => destruct (Pos.compare_spec a b)
  end.

Lemma SFleb_trans x y z :
  SFleb x y = true -> SFleb y z = true -> SFleb x z = true.
Proof.
  unfold SFleb.
  destruct x as [sx|sx| |sx mx ex], y as [sy|sy| |sy my ey], z as [sz|sz| |sz mz ez];
    cbn [SFcompare]; try discriminate; try reflexivity;
    try (destruct sx; try discriminate; try reflexivity);
    try (destruct sy; try discriminate; try reflexivity);
    try (destruct sz; try discriminate; try reflexivity);
    rewrite ?compare_cont_Eq; intros H1 H2;
    cmp_cases; cbn [CompOpp] in *; try discriminate; try reflexivity; try lia.
Qed.

Lemma SFleb_ltb_false a x : SFleb a x = true -> SFltb x a = false.
Proof.
  unfold SFleb, SFltb. rewrite (SFcompare_antisym a x).
  destruct (SFcompare a x) as [[]|]; simpl; congruence.
Qed.

Lemma SFltb_leb a x : SFltb a x = true -> SFleb a x = true.
Proof.
  unfold SFleb, SFltb. destruct (SFcompare a x) as [[]|]; congruence.
Qed.

Lemma SFleb_not_nan_l x y : SFleb x y = true -> is_nanb x = false.
Proof. destruct x; try reflexivity. discriminate. Qed.

Lemma SFleb_not_nan_r x y : SFleb x y = true -> is_nanb y = false.
Proof. destruct y; try reflexivity. destruct x; discriminate. Qed.

Lemma leb_trans (x y z : float) :
  (x <=? y)%float = true -> (y <=? z)%float = true -> (x <=? z)%float = true.
Proof. rewrite !leb_spec. apply SFleb_trans. Qed.

Lemma leb_ltb_false (a x : float) :
  (a <=? x)%float = true -> (x <? a)%float = false.
Proof. rewrite leb_spec, ltb_spec. apply SFleb_ltb_false. Qed.

Lemma ltb_leb (a x : float) :
  (a <? x)%float = true -> (a <=? x)%float = true.
Proof. rewrite leb_spec, ltb_spec. apply SFltb_leb. Qed.

Lemma leb_not_nan_l (x y : float) : (x <=? y)%float = true -> is_nan x = false.
Proof. rewrite leb_spec, is_nan_spec. apply SFleb_not_nan_l. Qed.

Lemma leb_not_nan_r (x y : float) : (x <=? y)%float = true -> is_nan y = false.
Proof. rewrite leb_spec, is_nan_spec. apply SFleb_not_nan_r. Qed.

Lemma fin_le_mono a b x : a <= b -> fin_le a x -> fin_le b x.
Proof. destruct x; simpl; try tauto. lia. Qed.

Lemma fbound_mono a b x : a <= b -> fbound a x -> fbound b x.
Proof. apply fin_le_mono. Qed.

Lemma fbound_mul a b k (x y : float) :
  fbound a x -> fbound b y -> Z.max (a + b + 54) (-1073) <= k -> k <= 971 ->
  fbound k (x * y)%float.
Proof.
  unfold fbound. intros. rewrite mul_spec.
  apply SFmul_fin with a b; auto using Prim2SF_valid.
Qed.

Lemma fbound_add a b k (x y : float) :
  fbound a x -> fbound b y -> Z.max a b + 2 <= k -> k <= 971 ->
  fbound k (x + y)%float.
Proof.
  unfold fbound. intros. rewrite add_spec.
  apply SFadd_fin with a b; auto using Prim2SF_valid.
Qed.

Lemma fbound_not_nan k x : fbound k x -> is_nan x = false.
Proof.
  unfold fbound. rewrite is_nan_spec. destruct (Prim2SF x); simpl; tauto.
Qed.

Lemma fin_le_of_range x mc ec :
  SFleb (S754_zero false) x = true ->
  SFleb x (S754_finite false mc ec) = true ->
  fin_le ec x.
Proof.
  unfold SFleb.
  destruct x as [s|s| |s m e]; cbn [SFcompare fin_le].
  - auto.
  - destruct s; discriminate.
  - discriminate.
  - destruct s; [discriminate|]. intros _.
    destruct (Z.compare_spec e ec); try discriminate; lia.
Qed.

Lemma fin_le_of_abs x mc ec :
  SFleb (SFabs x) (S754_finite false mc ec) = true ->
  fin_le ec x.
Proof.
  unfold SFleb.
  destruct x as [s|s| |s m e]; cbn [SFabs SFcompare fin_le].
  - auto.
  - discriminate.
  - discriminate.
  - destruct (Z.compare_spec e ec); try discriminate; lia.
Qed.

Lemma fbound_of_range (x c : float) mc ec :
  Prim2SF c = S754_finite false mc ec ->
  (0 <=? x)%float = true -> (x <=? c)%float = true -> fbound ec x.
Proof.
  intros Hc. rewrite !leb_spec, Hc. apply fin_le_of_range.
Qed.

Lemma fbound_of_abs (x c : float) mc ec :
  Prim2SF c = S754_finite false mc ec ->
  (abs x <=? c)%float = true -> fbound ec x.
Proof.
  intros Hc. rewrite leb_spec, abs_spec, Hc. apply fin_le_of_abs.
Qed.

Lemma SFleb_pos m1 e1 m2 e2 :
  SFleb (S754_finite false m1 e1) (S754_finite false m2 e2) = true <->
  e1 < e2 \/ (e1 = e2 /\ (m1 <= m2)%positive).
Proof.
  unfold SFleb. cbn [SFcompare].
  cmp_cases; split; intros; try discriminate; try reflexivity; lia.
Qed.

Lemma SFmul_half_range x :
  valid_binary x = true ->
  SFleb (S754_finite false 7205759403792794 (-53)) x = true ->
  SFleb x (S754_finite false 6755399441055744 (-52)) = true ->
  SFleb (S754_finite false 7205759403792794 (-54))
        (SFmul prec emax x (S754_finite false two52 (-53))) = true /\
  SFleb (SFmul prec emax x (S754_finite false two52 (-53)))
        (S754_finite false 6755399441055744 (-53)) = true.
Proof.
  intros V Hlo Hhi.
  destruct x as [s|s| |s m e]; try (destruct s; discriminate); try discriminate.
  destruct s; try discriminate.
  apply SFleb_pos in Hlo, Hhi.
  pose proof (valid_canonical _ _ _ V) as Hc. rewrite fexp_unfold in Hc.
  clear V. revert Hlo Hhi.
  generalize 7205759403792794%positive 6755399441055744%positive.
  intros c1 c2 Hlo Hhi.
  rewrite SFmul_pow2.
  - rewrite !SFleb_pos. lia.
  - rewrite fexp_unfold. lia.
  - lia.
Qed.

Lemma bootstrap_range (u : float) :
  (0.8 <=? u)%float = true -> (u <=? 1.5)%float = true ->
  (0.4 <=? u * 0.5)%float = true /\ (u * 0.5 <=? 0.75)%float = true.
Proof.
  rewrite !leb_spec, mul_spec. intros Hlo Hhi.
  apply SFmul_half_range; [apply Prim2SF_valid|exact Hlo|exact Hhi].
Qed.

Lemma SFeqb_zero_ltb x : SFeqb x (S754_zero false) = true -> SFltb (S754_zero false) x = false.
Proof.
  unfold SFeqb, SFltb.
  destruct x as [s|s| |s m e]; cbn [SFcompare]; try (destruct s; discriminate); try discriminate.
  reflexivity.
Qed.

Lemma eqb_zero_ltb (x : float) : (x =? 0)%float = true -> (0 <? x)%float = false.
Proof. rewrite eqb_spec, ltb_spec. apply SFeqb_zero_ltb. Qed.

(** * The price model and the engine: properties *)

Lemma clamp_price_range (p : float) :
  is_nan p = false -> price_in_range (clamp_price p) = true.
Proof.
  intros Hn. unfold clamp_price, cpp_max, cpp_min, price_in_range.
  destruct (p <? 0.01)%float eqn:E1.
  - reflexivity.
  - destruct (10000 <? p)%float eqn:E2.
    + reflexivity.
    + rewrite (ltb_false_leb p 0.01 E1 Hn eq_refl).
      rewrite (ltb_false_leb 10000 p E2 eq_refl Hn). reflexivity.
Qed.

Lemma clamp_price_id (p : float) :
  price_in_range p = true -> clamp_price p = p.
Proof.
  unfold price_in_range. intros H. apply andb_true_iff in H. destruct H as [H1 H2].
  unfold clamp_price, cpp_max, cpp_min.
  rewrite (leb_ltb_false _ _ H1), (leb_ltb_false _ _ H2). reflexivity.
Qed.

Ltac fbound_const := unfold fbound; vm_compute; first [exact I | discriminate].

Lemma getStoryMultiplier_fbound md c :
  In (MarketData.current_arc md) story_arcs -> fbound (-49) (getStoryMultiplier md c).
Proof.
  intros H. unfold getStoryMultiplier.
  unfold story_arcs in H. cbn [In] in H.
  repeat (destruct H as [H|H]; [rewrite <- H; clear H|]); [..|contradiction];
    cbn [story_arc_multipliers map_index String.eqb Ascii.eqb Bool.eqb andb];
    repeat match goal with
    | |- context [String.eqb (Character.name c) ?s] =>
        destruct (String.eqb (Character.name c) s)
    end; fbound_const.
Qed.

Lemma crew_factor_fbound s : fbound (-52) (crew_factor_of s).
Proof.
  unfold crew_factor_of.
  repeat match goal with
  | |- context [String.eqb s ?t] => destruct (String.eqb s t)
  end; cbn [orb]; fbound_const.
Qed.

Lemma event_factor_fbound md : fbound (-52) (event_factor_of md).
Proof.
  unfold event_factor_of. destruct (MarketData.major_event_active md); fbound_const.
Qed.

Lemma wrap_long_long_small z :
  - 2 ^ 63 <= z < 2 ^ 63 -> wrap_long_long z = z.
Proof.
  intros H. unfold wrap_long_long. rewrite Z.mod_small; lia.
Qed.

Lemma bounty_factor_fbound R b :
  log10_bounded R -> 0 <= b < 2 ^ 63 - 1 -> fbound (-50) (bounty_factor_of R b).
Proof.
  intros Hlog Hb. unfold bounty_factor_of.
  destruct (b >? 0) eqn:E; [|fbound_const].
  rewrite wrap_long_long_small by lia.
  destruct (Hlog (b + 1) ltac:(lia)) as [H0 H19].
  assert (fbound (-48) (log10 R (double_of_Z (b + 1)))) as Hl.
  { eapply fbound_of_range; [|exact H0|exact H19]. reflexivity. }
  apply fbound_add with (a := -52) (b := -52); [fbound_const| |lia|lia].
  apply fbound_mul with (a := -48) (b := -58); [exact Hl|fbound_const|lia|lia].
Qed.

Lemma sane_character_spec c :
  sane_character c = true ->
  (0 <=? Character.base_growth_rate c)%float = true
  /\ (Character.base_growth_rate c <=? 1)%float = true
  /\ (0 <=? Character.volatility c)%float = true
  /\ (Character.volatility c <=? 1)%float = true
  /\ 0 <= Character.bounty c < 2 ^ 63 - 1.
Proof.
  unfold sane_character. rewrite !andb_true_iff, Z.leb_le, Z.ltb_lt. tauto.
Qed.

Lemma price_in_range_spec p :
  price_in_range p = true ->
  (0.01 <=? p)%float = true /\ (p <=? 10000)%float = true.
Proof. unfold price_in_range. rewrite andb_true_iff. tauto. Qed.

Lemma raw_price_fbound R md c z :
  log10_bounded R ->
  (abs z <=? 1e100)%float = true ->
  In (MarketData.current_arc md) story_arcs ->
  sane_character c = true ->
  price_in_range (Character.current_price c) = true ->
  fbound 319
    (Character.current_price c
     * (1.0 + (if (Character.current_price c <? 10.0)%float
               then Character.base_growth_rate c * 2.0
               else Character.base_growth_rate c) * getStoryMultiplier md c)
     * (1.0 + z * Character.volatility c)
     * bounty_factor_of R (Character.bounty c)
     * crew_factor_of (Character.crew c)
     * event_factor_of md)%float.
Proof.
  intros Hlog Hz Harc Hs Hp.
  destruct (sane_character_spec c Hs) as (Hg0 & Hg1 & Hv0 & Hv1 & Hb).
  destruct (price_in_range_spec _ Hp) as [Hp0 Hp1].
  assert (fbound (-39) (Character.current_price c)) as Bp.
  { eapply fbound_of_range; [|eapply leb_trans; [|exact Hp0]|exact Hp1]; reflexivity. }
  assert (fbound (-52) (Character.base_growth_rate c)) as Bg.
  { eapply fbound_of_range; [|exact Hg0|exact Hg1]. reflexivity. }
  assert (fbound (-52) (Character.volatility c)) as Bv.
  { eapply fbound_of_range; [|exact Hv0|exact Hv1]. reflexivity. }
  assert (fbound 280 z) as Bz.
  { eapply fbound_of_abs; [|exact Hz]. reflexivity. }
  assert (fbound (-49) (if (Character.current_price c <? 10.0)%float
                        then Character.base_growth_rate c * 2.0
                        else Character.base_growth_rate c)%float) as Bbg.
  { destruct (Character.current_price c <? 10.0)%float.
    - apply fbound_mul with (a := -52) (b := -51); [exact Bg|fbound_const|lia|lia].
    - apply fbound_mono with (a := -52); [lia|exact Bg]. }
  pose proof (getStoryMultiplier_fbound md c Harc) as Bsm.
  pose proof (bounty_factor_fbound R _ Hlog Hb) as Bbf.
  pose proof (crew_factor_fbound (Character.crew c)) as Bcf.
  pose proof (event_factor_fbound md) as Bef.
  apply fbound_mul with (a := 317) (b := -52); [|exact Bef|lia|lia].
  apply fbound_mul with (a := 315) (b := -52); [|exact Bcf|lia|lia].
  apply fbound_mul with (a := 311) (b := -50); [|exact Bbf|lia|lia].
  apply fbound_mul with (a := -27) (b := 284); [| |lia|lia].
  - apply fbound_mul with (a := -39) (b := -42); [exact Bp| |lia|lia].
    apply fbound_add with (a := -52) (b := -44); [fbound_const| |lia|lia].
    apply fbound_mul with (a := -49) (b := -49); [exact Bbg|exact Bsm|lia|lia].
  - apply fbound_add with (a := -52) (b := 282); [fbound_const| |lia|lia].
    apply fbound_mul with (a := 280) (b := -52); [exact Bz|exact Bv|lia|lia].
Qed.

Lemma bootstrap_price (u : float) :
  (0.8 <=? u)%float = true -> (u <=? 1.5)%float = true ->
  in_bootstrap_range (clamp_price (u * 0.5)) = true
  /\ price_in_range (clamp_price (u * 0.5)) = true.
Proof.
  intros Hlo Hhi. destruct (bootstrap_range u Hlo Hhi) as [H1 H2].
  assert (price_in_range (u * 0.5) = true) as Hr.
  { unfold price_in_range. apply andb_true_iff. split.
    - eapply leb_trans; [|exact H1]. reflexivity.
    - eapply leb_trans; [exact H2|]. reflexivity. }
  rewrite (clamp_price_id _ Hr). split; [|exact Hr].
  unfold in_bootstrap_range. rewrite H1, H2. reflexivity.
Qed.

Lemma calculateNewPrice_in_range R md c g :
  runtime_ok R ->
  In (MarketData.current_arc md) story_arcs ->
  sane_character c = true ->
  price_ok (Character.current_price c) = true ->
  price_in_range (fst (calculateNewPrice R md c g)) = true.
Proof.
  intros (Hn & Hgr & Hlog) Harc Hs Hp.
  unfold calculateNewPrice, bind, ret.
  pose proof (Hn g) as Hz.
  destruct (price_volatility R g) as [z g1]. cbn [fst] in Hz.
  destruct (Character.current_price c =? 0.0)%float eqn:E0.
  - destruct (Hgr g1) as [Hlo Hhi].
    destruct (growth_factor R g1) as [u g2]. cbn [fst] in *.
    apply bootstrap_price; assumption.
  - cbn [fst]. apply clamp_price_range.
    unfold price_ok in Hp. rewrite E0 in Hp. cbn [orb] in Hp.
    eapply fbound_not_nan. apply raw_price_fbound; eassumption.
Qed.

Lemma Forall_replace_nth {A} (P : A -> Prop) k x l :
  Forall P l -> P x -> Forall P (replace_nth k x l).
Proof.
  intros Hl Hx. revert k. induction Hl as [|y l Hy Hl IH]; intros k.
  - destruct k; constructor.
  - destruct k; cbn [replace_nth]; constructor; auto.
Qed.

Lemma Forall_nth_error {A} (P : A -> Prop) l k x :
  Forall P l -> nth_error l k = Some x -> P x.
Proof.
  intros Hl Hk. rewrite Forall_forall in Hl. apply Hl. eapply nth_error_In. exact Hk.
Qed.

Lemma length_replace_nth {A} k (x : A) l :
  List.length (replace_nth k x l) = List.length l.
Proof.
  revert k. induction l as [|y l IH]; intros k; destruct k; cbn [replace_nth List.length]; auto.
Qed.

Lemma update_character_eq R md now c g :
  update_character R md now c g =
  (Character.set_price c (fst (calculateNewPrice R md c g))
     (percent_change (Character.current_price c) (fst (calculateNewPrice R md c g))) now,
   snd (calculateNewPrice R md c g)).
Proof.
  unfold update_character, bind, ret.
  destruct (calculateNewPrice R md c g) as [p g']. reflexivity.
Qed.

Lemma wrap_int_next i :
  to_size_t i < to_size_t last_arc_index ->
  wrap_int (i + 1) = to_size_t i + 1 /\ 0 <= to_size_t i < 11.
Proof.
  unfold to_size_t, wrap_int, last_arc_index. cbn [story_arcs List.length].
  change (Z.of_nat 12 - 1) with 11.
  change (2 ^ 64) with 18446744073709551616.
  change (2 ^ 32) with 4294967296. change (2 ^ 31) with 2147483648.
  intros H. Z.div_mod_to_equations. lia.
Qed.

Lemma next_arc_in_table i :
  to_size_t i < to_size_t last_arc_index ->
  In (vector_index story_arcs (wrap_int (i + 1))) story_arcs.
Proof.
  intros H. destruct (wrap_int_next i H) as [E Hr]. rewrite E.
  unfold vector_index. apply nth_In. cbn [story_arcs List.length]. lia.
Qed.

Lemma progressStory_block_cases R (e : PriceEngine R) :
  progressStory_block R e = e
  \/ (to_size_t (current_arc_index e) < to_size_t last_arc_index
      /\ progressStory_block R e =
         with_market_data R
           (with_arc_index R e (wrap_int (current_arc_index e + 1)))
           (MarketData.set_major_event_active
              (MarketData.set_current_arc (market_data e)
                 (vector_index story_arcs (wrap_int (current_arc_index e + 1))))
              true)).
Proof.
  unfold progressStory_block.
  destruct (_ && _)%bool; [|left; reflexivity].
  fold last_arc_index.
  destruct (to_size_t (current_arc_index e) <? to_size_t last_arc_index) eqn:E;
    [|left; reflexivity].
  right. split; [apply Z.ltb_lt; exact E|reflexivity].
Qed.

Lemma finish_iteration_frame R now (e : PriceEngine R) :
  characters (finish_iteration R now e) = characters e
  /\ MarketData.current_arc (market_data (finish_iteration R now e))
     = MarketData.current_arc (market_data e)
  /\ current_arc_index (finish_iteration R now e) = current_arc_index e
  /\ running (finish_iteration R now e) = running e
  /\ calculation_thread (finish_iteration R now e) = calculation_thread e
  /\ story_progression_thread (finish_iteration R now e) = story_progression_thread e
  /\ caller (finish_iteration R now e) = caller e.
Proof.
  unfold finish_iteration, triggerMajorEvent.
  destruct (event_chance R (gen e)) as [x g'].
  destruct (x <? 0.1)%float; cbn.
  - destruct (gen_call R g') as [n g'']. cbn. repeat split; reflexivity.
  - repeat split; reflexivity.
Qed.

Lemma step_engine_ok R (e e' : PriceEngine R) ev :
  runtime_ok R -> engine_ok e -> step R e ev = Some e' -> engine_ok e'.
Proof.
  intros HR [Hc Ha] Hstep. unfold engine_ok.
  destruct ev; cbn [step] in Hstep.
  - destruct (caller e); try discriminate.
    destruct (running e); [injection Hstep as <-; split; assumption|].
    destruct (_ || _)%bool; [discriminate|]. injection Hstep as <-. split; assumption.
  - destruct (caller e); try discriminate. injection Hstep as <-. split; assumption.
  - destruct (caller e); try discriminate.
    destruct (calculation_thread e); try discriminate; injection Hstep as <-; split; assumption.
  - destruct (caller e); try discriminate.
    destruct (story_progression_thread e); try discriminate; injection Hstep as <-; split; assumption.
  - destruct (calculation_thread e); try discriminate.
    destruct (running e); injection Hstep as <-; split; assumption.
  - destruct (calculation_thread e) as [| |k| |]; try discriminate.
    destruct (nth_error (characters e) k) as [c|] eqn:Ek; [|discriminate].
    rewrite update_character_eq in Hstep. injection Hstep as <-. cbn.
    split; [|assumption].
    apply Forall_replace_nth; [assumption|].
    destruct (Forall_nth_error _ _ _ _ Hc Ek) as [Hs Hp]. cbn. split.
    + exact Hs.
    + unfold price_ok. rewrite (calculateNewPrice_in_range R _ c _ HR Ha Hs Hp).
      apply orb_true_r.
  - destruct (calculation_thread e) as [| |k| |]; try discriminate.
    destruct (Nat.eqb k (List.length (characters e))); [|discriminate].
    injection Hstep as <-. cbn.
    destruct (finish_iteration_frame R now e) as (E1 & E2 & _).
    rewrite E1, E2. split; assumption.
  - destruct (story_progression_thread e); try discriminate.
    destruct (running e); injection Hstep as <-; split; assumption.
  - destruct (story_progression_thread e); try discriminate.
    destruct (holds_mutex (calculation_thread e)); [discriminate|].
    injection Hstep as <-. cbn.
    destruct (progressStory_block_cases R e) as [E|[Hlt E]]; rewrite E; cbn.
    + split; assumption.
    + split; [assumption|]. apply next_arc_in_table. exact Hlt.
  - destruct (pending_resets e); [discriminate|]. injection Hstep as <-. split; assumption.
Qed.

Lemma run_engine_ok R evs : forall (e e' : PriceEngine R),
  runtime_ok R -> engine_ok e -> run R evs e = Some e' -> engine_ok e'.
Proof.
  induction evs as [|ev evs IH]; intros e e' HR He Hrun; cbn [run] in Hrun.
  - injection Hrun as <-. exact He.
  - destruct (step R e ev) as [e1|] eqn:E1; [|discriminate].
    eapply IH; [exact HR| |exact Hrun]. eapply step_engine_ok; eassumption.
Qed.

Lemma scripted_runtime_ok n : runtime_ok (scripted_runtime n).
Proof.
  split; [|split].
  - intros g. reflexivity.
  - intros g. split; reflexivity.
  - intros k _. split; reflexivity.
Qed.

Lemma main_engine_ok R seed : engine_ok (main_engine R seed).
Proof.
  split.
  - cbn. repeat constructor.
  - left. reflexivity.
Qed.

(** C1.  With an ordinary library (normal draws of magnitude at most
    1e100, [growth_factor] draws within its bounds, [log10] of an integer
    between 0 and 19), the price model returns a value in [[0.01, 10000]]
    for every character with an ordinary configuration whose price is zero
    or already in that interval, under a current arc of the table; and in
    every state the engine reaches from one where that holds of all
    characters, every price is zero or satisfies 0.01 <= price <= 10000. *)
Theorem price_stays_within_clamp (R : Runtime) :
  runtime_ok R ->
  (forall md c g,
      In (MarketData.current_arc md) story_arcs ->
      sane_character c = true ->
      price_ok (Character.current_price c) = true ->
      price_in_range (fst (calculateNewPrice R md c g)) = true)
  /\ (forall (e0 e : PriceEngine R) evs,
        engine_ok e0 -> run R evs e0 = Some e ->
        Forall (fun c => price_ok (Character.current_price c) = true) (characters e)).
Proof.
  intros HR. split.
  - intros md c g. apply calculateNewPrice_in_range. exact HR.
  - intros e0 e evs H0 Hrun.
    destruct (run_engine_ok R evs e0 e HR H0 Hrun) as [Hc _].
    eapply Forall_impl; [|exact Hc]. cbn. tauto.
Qed.

Lemma price_stays_within_clamp_witness :
  match run (scripted_runtime 1) (EStart :: tick_events 17 ++ tick_events 17)
            (main_engine (scripted_runtime 1) (0%nat, 0%nat)) with
  | Some e => Forall (fun c => price_ok (Character.current_price c) = true) (characters e)
  | None => False
  end.
Proof.
  destruct (run _ _ _) as [e|] eqn:E.
  - eapply (proj2 (price_stays_within_clamp (scripted_runtime 1) (scripted_runtime_ok 1))).
    + apply main_engine_ok.
    + exact E.
  - vm_compute in E. discriminate E.
Defined.

Lemma getStoryMultiplier_spec md c :
  getStoryMultiplier md c = arc_multiplier_spec md c.
Proof.
  unfold getStoryMultiplier, arc_multiplier_spec, arc_overrides.
  cbn [lookup_override].
  rewrite (String.eqb_sym "Monkey D. Luffy" (Character.name c)).
  rewrite (String.eqb_sym "Kaido" (Character.name c)).
  rewrite (String.eqb_sym "Summit War Saga" (MarketData.current_arc md)).
  rewrite (String.eqb_sym "Wano Country Saga" (MarketData.current_arc md)).
  destruct (String.eqb (MarketData.current_arc md) "Summit War Saga");
  destruct (String.eqb (MarketData.current_arc md) "Wano Country Saga");
  destruct (String.eqb (Character.name c) "Monkey D. Luffy");
  destruct (String.eqb (Character.name c) "Kaido"); reflexivity.
Qed.

Lemma clamp_price_interval (p : float) :
  clamp_price p = clamp_to_interval price_floor price_ceiling p.
Proof.
  unfold clamp_price, clamp_to_interval, cpp_max, cpp_min, price_floor, price_ceiling.
  destruct (p <? 0.01)%float; reflexivity.
Qed.

Lemma crew_factor_group_table (crew : string) :
  crew_factor_of crew = group_factor_spec group_bonus_table crew.
Proof.
  unfold crew_factor_of, group_bonus_table. cbn [group_factor_spec].
  rewrite (String.eqb_sym "Straw Hat Pirates" crew).
  rewrite (String.eqb_sym "Beast Pirates" crew).
  rewrite (String.eqb_sym "Big Mom Pirates" crew).
  destruct (String.eqb crew "Straw Hat Pirates"); [reflexivity|].
  destruct (String.eqb crew "Beast Pirates"); [reflexivity|].
  destruct (String.eqb crew "Big Mom Pirates"); reflexivity.
Qed.

Lemma clamp_to_interval_range (p : float) :
  is_nan p = false ->
  (price_floor <=? clamp_to_interval price_floor price_ceiling p)%float = true
  /\ (clamp_to_interval price_floor price_ceiling p <=? price_ceiling)%float = true.
Proof.
  intros Hn. rewrite <- clamp_price_interval.
  pose proof (clamp_price_range p Hn) as Hr.
  unfold price_in_range in Hr. apply andb_true_iff in Hr. exact Hr.
Qed.

(** C2.  For a character whose price is not zero (and whose bounty is not
    negative), [calculateNewPrice] returns the price model of the
    specification: the clamp to [[0.01, 10000]] of price * (1 + growth_rate
    * boost * arc_multiplier) * (1 + draw * volatility) * reputation factor
    * group factor * active-event factor, where boost is 2 below the
    threshold and 1 otherwise, the arc multiplier is the base value of the
    arc with its overrides, the reputation factor is 1 + log10(bounty + 1) *
    0.02, and 1 for a bounty of 0, the group factor is read from the table
    of bonuses and the active-event factor is 1.5 with the flag set and 1
    otherwise.  The products are those of [double], taken in the order
    written here.  The returned price is the product itself when the
    product lies in the interval, 0.01 when it is below and 10000 when it is
    above; it lies in the interval whenever the product is not a NaN. *)
Theorem price_model_matches_specification (R : Runtime) md c g :
  (Character.current_price c =? 0.0)%float = false ->
  0 <= Character.bounty c < 2 ^ 63 - 1 ->
  let product := price_product_spec R md c (fst (price_volatility R g)) in
  let result := fst (calculateNewPrice R md c g) in
  result = price_model_spec R md c (fst (price_volatility R g))
  /\ ((product <? 0.01)%float = true -> result = 0.01%float)
  /\ ((10000.0 <? product)%float = true -> result = 10000.0%float)
  /\ ((0.01 <=? product)%float = true -> (product <=? 10000.0)%float = true ->
      result = product)
  /\ (is_nan product = false ->
      (0.01 <=? result)%float = true /\ (result <=? 10000.0)%float = true).
Proof.
  intros E0 Hb product result.
  assert (result = price_model_spec R md c (fst (price_volatility R g))) as Hres.
  { subst result. unfold calculateNewPrice, price_model_spec, price_product_spec, bind, ret.
    destruct (price_volatility R g) as [z g1]. rewrite E0. cbn [fst].
    rewrite clamp_price_interval. f_equal.
    assert ((if (Character.current_price c <? 10.0)%float
             then Character.base_growth_rate c * 2.0
             else Character.base_growth_rate c)%float
            = (Character.base_growth_rate c
               * cold_start_boost (Character.current_price c))%float) as ->.
    { unfold cold_start_boost, cold_start_threshold.
      destruct (Character.current_price c <? 10.0)%float; [reflexivity|].
      symmetry. apply mul_one_r. }
    assert (bounty_factor_of R (Character.bounty c)
            = reputation_factor R (Character.bounty c)) as ->.
    { unfold bounty_factor_of, reputation_factor.
      destruct (Character.bounty c =? 0) eqn:Eb.
      - apply Z.eqb_eq in Eb. rewrite Eb. reflexivity.
      - apply Z.eqb_neq in Eb.
        assert ((Character.bounty c >? 0) = true) as -> by (apply Z.gtb_lt; lia).
        rewrite wrap_long_long_small by lia. reflexivity. }
    rewrite getStoryMultiplier_spec, crew_factor_group_table.
    reflexivity. }
  split; [exact Hres|].
  rewrite Hres. unfold price_model_spec. fold product.
  unfold clamp_to_interval, price_floor, price_ceiling.
  split; [|split; [|split]].
  - intros ->. reflexivity.
  - intros Hhi.
    assert ((0.01 <=? product)%float = true) as Hlo.
    { apply (leb_trans _ 10000.0%float); [reflexivity|apply ltb_leb; exact Hhi]. }
    rewrite (leb_ltb_false _ _ Hlo).
    rewrite Hhi. reflexivity.
  - intros Hlo Hhi.
    rewrite (leb_ltb_false _ _ Hlo), (leb_ltb_false _ _ Hhi). reflexivity.
  - intros Hn. apply (clamp_to_interval_range product Hn).
Qed.

(** What one pass of the loop over the characters does to the registry:
    each entry of the result is the update of the entry at its position. *)
Lemma update_characters_Forall2 R md clk cs : forall k g,
  Forall2 (fun c c' => exists now g0, c' = fst (update_character R md now c g0))
          cs (fst (update_characters R md clk k cs g)).
Proof.
  induction cs as [|c cs IH]; intros k g; cbn [update_characters].
  - constructor.
  - unfold bind, ret.
    destruct (update_character R md (clk k) c g) as [c' g1] eqn:E1.
    specialize (IH (S k) g1).
    destruct (update_characters R md clk (S k) cs g1) as [cs' g2]. cbn [fst] in *.
    constructor; [|exact IH].
    exists (clk k), g. rewrite E1. reflexivity.
Qed.

Lemma calculatePrices_iteration_characters R clk (e : PriceEngine R) :
  characters (calculatePrices_iteration R clk e)
  = fst (update_characters R (advance_day (market_data e)) clk 0
           (characters e) (gen e)).
Proof.
  unfold calculatePrices_iteration. cbn.
  destruct (update_characters R (advance_day (market_data e)) clk 0 (characters e) (gen e))
    as [cs g'].
  destruct (finish_iteration_frame R (clk (List.length (characters e)))
              (with_gen R (with_characters R (with_market_data R e (advance_day (market_data e))) cs) g'))
    as (E & _).
  rewrite E. reflexivity.
Qed.

Lemma update_character_bootstrap R md now c g :
  growth_draws_in_range R ->
  (Character.current_price c =? 0.0)%float = true ->
  in_bootstrap_range (Character.current_price (fst (update_character R md now c g))) = true.
Proof.
  intros Hgr E0. rewrite update_character_eq. cbn [fst Character.current_price Character.set_price].
  unfold calculateNewPrice, bind, ret.
  destruct (price_volatility R g) as [z g1]. rewrite E0.
  destruct (Hgr g1) as [Hlo Hhi].
  destruct (growth_factor R g1) as [u g2]. cbn [fst] in *.
  apply bootstrap_price; assumption.
Qed.

(** C3.  The constructor sets the price to exactly 0.0; when
    [growth_factor] draws within its bounds [[0.8, 1.5]], the update of a
    character whose price is zero leaves a price in [[0.40, 0.75]], and so
    does a whole iteration of the price loop for every character of a
    registry whose prices are all zero. *)
Theorem bootstrap_price_range (R : Runtime) :
  growth_draws_in_range R ->
  (forall id name crew bounty growth_rate now,
      Character.current_price (Character.new id name crew bounty growth_rate now)
      = 0.0%float)
  /\ (forall md now c g,
        (Character.current_price c =? 0.0)%float = true ->
        in_bootstrap_range
          (Character.current_price (fst (update_character R md now c g))) = true)
  /\ (forall clk (e : PriceEngine R),
        Forall (fun c => (Character.current_price c =? 0.0)%float = true) (characters e) ->
        Forall (fun c => in_bootstrap_range (Character.current_price c) = true)
               (characters (calculatePrices_iteration R clk e))).
Proof.
  intros Hgr. split; [|split].
  - reflexivity.
  - intros md now c g. apply update_character_bootstrap. exact Hgr.
  - intros clk e H0. rewrite calculatePrices_iteration_characters.
    pose proof (update_characters_Forall2 R (advance_day (market_data e)) clk
                  (characters e) 0%nat (gen e)) as H2.
    revert H0. induction H2 as [|c c' cs cs' (now & g0 & Hc) _ IH]; intros H0.
    + constructor.
    + inversion H0 as [|? ? Hz Hrest]; subst. constructor.
      * apply update_character_bootstrap; assumption.
      * apply IH. exact Hrest.
Qed.

Lemma bootstrap_price_range_witness :
  Forall (fun c => in_bootstrap_range (Character.current_price c) = true)
    (characters (calculatePrices_iteration (scripted_runtime 0) (fun _ => 0)
                   (main_engine (scripted_runtime 0) (0%nat, 0%nat)))).
Proof.
  apply (proj2 (proj2 (bootstrap_price_range (scripted_runtime 0)
                         (proj1 (proj2 (scripted_runtime_ok 0)))))).
  cbn. repeat constructor.
Defined.

(** C4.  The recorded change is (new - old) / old * 100 when old > 0, is
    100 when old is 0 and new > 0, and is 0 when old and new are both 0; and
    the update of a character records that change of its old and new
    price. *)
Theorem percentage_change_law (R : Runtime) :
  (forall old_price new_price,
      (0.0 <? old_price)%float = true ->
      percent_change old_price new_price
      = ((new_price - old_price) / old_price * 100.0)%float)
  /\ (forall old_price new_price,
        (old_price =? 0.0)%float = true -> (0.0 <? new_price)%float = true ->
        percent_change old_price new_price = 100.0%float)
  /\ (forall old_price new_price,
        (old_price =? 0.0)%float = true -> (new_price =? 0.0)%float = true ->
        percent_change old_price new_price = 0.0%float)
  /\ (forall md now c g,
        Character.weekly_change (fst (update_character R md now c g))
        = percent_change (Character.current_price c)
            (Character.current_price (fst (update_character R md now c g)))).
Proof.
  split; [|split; [|split]].
  - intros o n H. unfold percent_change. rewrite H. reflexivity.
  - intros o n Ho Hn. unfold percent_change.
    rewrite (eqb_zero_ltb _ Ho), Hn. reflexivity.
  - intros o n Ho Hn. unfold percent_change.
    rewrite (eqb_zero_ltb _ Ho), (eqb_zero_ltb _ Hn). reflexivity.
  - intros md now c g. rewrite update_character_eq. reflexivity.
Qed.

Lemma percentage_change_law_witness :
  percent_change 2.0 3.0 = 50.0%float
  /\ percent_change 0.0 0.5 = 100.0%float
  /\ percent_change 0.0 0.0 = 0.0%float.
Proof.
  destruct (percentage_change_law (scripted_runtime 0)) as (H1 & H2 & H3 & _).
  split; [|split].
  - rewrite (H1 2.0 3.0 eq_refl)%float. reflexivity.
  - apply H2; reflexivity.
  - apply H3; reflexivity.
Defined.

Lemma last_arc_index_value : last_arc_index = 11.
Proof. reflexivity. Qed.

Lemma to_size_t_small z : 0 <= z < 2 ^ 64 -> to_size_t z = z.
Proof. intros H. unfold to_size_t. apply Z.mod_small. exact H. Qed.

Lemma progressStory_block_index R (e : PriceEngine R) :
  0 <= current_arc_index e <= last_arc_index ->
  current_arc_index e <= current_arc_index (progressStory_block R e) <= last_arc_index.
Proof.
  intros H. rewrite last_arc_index_value in *.
  destruct (progressStory_block_cases R e) as [E|[Hlt E]]; rewrite E.
  - lia.
  - cbn. destruct (wrap_int_next _ Hlt) as [Ew Hr]. rewrite Ew.
    rewrite to_size_t_small in * by lia. lia.
Qed.

Lemma step_arc_index R (e e' : PriceEngine R) ev :
  0 <= current_arc_index e <= last_arc_index ->
  step R e ev = Some e' ->
  current_arc_index e <= current_arc_index e' <= last_arc_index.
Proof.
  intros H Hstep.
  pose proof (progressStory_block_index R e H) as HP.
  rewrite last_arc_index_value in *.
  destruct ev; cbn [step] in Hstep.
  - destruct (caller e); try discriminate.
    destruct (running e); [injection Hstep as <-; lia|].
    destruct (_ || _)%bool; [discriminate|]. injection Hstep as <-. cbn. lia.
  - destruct (caller e); try discriminate. injection Hstep as <-. cbn. lia.
  - destruct (caller e); try discriminate.
    destruct (calculation_thread e); try discriminate; injection Hstep as <-; cbn; lia.
  - destruct (caller e); try discriminate.
    destruct (story_progression_thread e); try discriminate; injection Hstep as <-; cbn; lia.
  - destruct (calculation_thread e); try discriminate.
    destruct (running e); injection Hstep as <-; cbn; lia.
  - destruct (calculation_thread e) as [| |k| |]; try discriminate.
    destruct (nth_error (characters e) k) as [c|]; [|discriminate].
    destruct (update_character R (market_data e) now c (gen e)) as [c' g'].
    injection Hstep as <-. cbn. lia.
  - destruct (calculation_thread e) as [| |k| |]; try discriminate.
    destruct (Nat.eqb k (List.length (characters e))); [|discriminate].
    injection Hstep as <-. cbn.
    destruct (finish_iteration_frame R now e) as (_ & _ & E & _). rewrite E. lia.
  - destruct (story_progression_thread e); try discriminate.
    destruct (running e); injection Hstep as <-; cbn; lia.
  - destruct (story_progression_thread e); try discriminate.
    destruct (holds_mutex (calculation_thread e)); [discriminate|].
    injection Hstep as <-. cbn. exact HP.
  - destruct (pending_resets e); [discriminate|]. injection Hstep as <-. cbn. lia.
Qed.

Lemma run_arc_index R evs : forall (e e' : PriceEngine R),
  0 <= current_arc_index e <= last_arc_index ->
  run R evs e = Some e' ->
  current_arc_index e <= current_arc_index e' <= last_arc_index.
Proof.
  induction evs as [|ev evs IH]; intros e e' H Hrun; cbn [run] in Hrun.
  - injection Hrun as <-. lia.
  - destruct (step R e ev) as [e1|] eqn:E1; [|discriminate].
    pose proof (step_arc_index R e e1 ev H E1) as H1.
    assert (0 <= current_arc_index e1 <= last_arc_index) as H1' by lia.
    pose proof (IH e1 e' H1' Hrun). lia.
Qed.

(** C6.  Along every execution from an engine whose arc index is within
    the table, the index never decreases from one reached state to a later
    one and never exceeds the length of the arc table minus one. *)
Theorem arc_index_monotone_bounded (R : Runtime) :
  forall (e0 e1 e2 : PriceEngine R) evs1 evs2,
    0 <= current_arc_index e0 <= last_arc_index ->
    run R evs1 e0 = Some e1 ->
    run R evs2 e1 = Some e2 ->
    current_arc_index e1 <= current_arc_index e2
    /\ current_arc_index e2 <= Z.of_nat (List.length story_arcs) - 1.
Proof.
  intros e0 e1 e2 evs1 evs2 H0 H1 H2.
  pose proof (run_arc_index R evs1 e0 e1 H0 H1) as B1.
  assert (0 <= current_arc_index e1 <= last_arc_index) as B1' by lia.
  pose proof (run_arc_index R evs2 e1 e2 B1' H2) as B2.
  fold last_arc_index. lia.
Qed.

Lemma arc_index_monotone_bounded_witness :
  match run (scripted_runtime 0) hundred_days (main_engine (scripted_runtime 0) (0%nat, 0%nat)) with
  | Some e1 =>
      match run (scripted_runtime 0) [EStoryBlock; EStoryLoop; EStoryBlock] e1 with
      | Some e2 =>
          current_arc_index e1 <= current_arc_index e2
          /\ current_arc_index e2 <= Z.of_nat (List.length story_arcs) - 1
      | None => False
      end
  | None => False
  end.
Proof.
  destruct (run _ hundred_days _) as [e1|] eqn:E1.
  - destruct (run _ [EStoryBlock; EStoryLoop; EStoryBlock] e1) as [e2|] eqn:E2.
    + apply (arc_index_monotone_bounded (scripted_runtime 0)
               (main_engine (scripted_runtime 0) (0%nat, 0%nat)) e1 e2
               hundred_days [EStoryBlock; EStoryLoop; EStoryBlock]).
      * cbn. lia.
      * exact E1.
      * exact E2.
    + vm_compute in E1. injection E1 as <-. vm_compute in E2. discriminate E2.
  - vm_compute in E1. discriminate E1.
Defined.

(** C7.  [getStoryMultiplier] is the base value of the current arc,
    multiplied by the entry of a table of exactly three overrides keyed by
    (character name, arc name) when the pair is in that table, and the base
    value unchanged for every other pair. *)
Theorem arc_multiplier_overrides md c :
  getStoryMultiplier md c = arc_multiplier_spec md c
  /\ List.length arc_overrides = 3%nat
  /\ (lookup_override arc_overrides (Character.name c) (MarketData.current_arc md) = None ->
      getStoryMultiplier md c
      = map_index story_arc_multipliers (MarketData.current_arc md)).
Proof.
  split; [apply getStoryMultiplier_spec|]. split; [reflexivity|].
  intros H. rewrite getStoryMultiplier_spec. unfold arc_multiplier_spec. rewrite H.
  reflexivity.
Qed.

Lemma arc_multiplier_overrides_witness :
  getStoryMultiplier (MarketData.set_current_arc (MarketData.new 0) "Wano Country Saga")
    (Character.new 2 "Roronoa Zoro" "Straw Hat Pirates" 1111000000 0.12 0)
  = 4.0%float.
Proof.
  rewrite (proj2 (proj2 (arc_multiplier_overrides _ _))); reflexivity.
Defined.

Lemma same_static_fields_refl c : same_static_fields c c.
Proof. unfold same_static_fields. repeat split. Qed.

Lemma same_static_fields_set_price c p w now :
  same_static_fields c (Character.set_price c p w now).
Proof. unfold same_static_fields. repeat split. Qed.

Lemma Forall2_refl {A} (P : A -> A -> Prop) l :
  (forall x, P x x) -> Forall2 P l l.
Proof. intros H. induction l; constructor; auto. Qed.

Lemma Forall2_replace_nth {A} (P : A -> A -> Prop) k x y l :
  (forall z, P z z) -> nth_error l k = Some x -> P x y ->
  Forall2 P l (replace_nth k y l).
Proof.
  intros Hr. revert k. induction l as [|z l IH]; intros k Hk Hxy.
  - destruct k; discriminate.
  - destruct k; cbn [replace_nth nth_error] in *.
    + injection Hk as ->. constructor; [exact Hxy|]. apply Forall2_refl. exact Hr.
    + constructor; [apply Hr|]. apply IH; assumption.
Qed.

Lemma step_characters_frame R (e e' : PriceEngine R) ev :
  step R e ev = Some e' ->
  Forall2 same_static_fields (characters e) (characters e').
Proof.
  intros Hstep.
  assert (Forall2 same_static_fields (characters e) (characters e)) as Hrefl
    by (apply Forall2_refl, same_static_fields_refl).
  destruct ev; cbn [step] in Hstep.
  - destruct (caller e); try discriminate.
    destruct (running e); [injection Hstep as <-; exact Hrefl|].
    destruct (_ || _)%bool; [discriminate|]. injection Hstep as <-. exact Hrefl.
  - destruct (caller e); try discriminate. injection Hstep as <-. exact Hrefl.
  - destruct (caller e); try discriminate.
    destruct (calculation_thread e); try discriminate; injection Hstep as <-; exact Hrefl.
  - destruct (caller e); try discriminate.
    destruct (story_progression_thread e); try discriminate; injection Hstep as <-; exact Hrefl.
  - destruct (calculation_thread e); try discriminate.
    destruct (running e); injection Hstep as <-; exact Hrefl.
  - destruct (calculation_thread e) as [| |k| |]; try discriminate.
    destruct (nth_error (characters e) k) as [c|] eqn:Ek; [|discriminate].
    rewrite update_character_eq in Hstep. injection Hstep as <-. cbn.
    eapply Forall2_replace_nth; [apply same_static_fields_refl|exact Ek|].
    apply same_static_fields_set_price.
  - destruct (calculation_thread e) as [| |k| |]; try discriminate.
    destruct (Nat.eqb k (List.length (characters e))); [|discriminate].
    injection Hstep as <-. cbn.
    destruct (finish_iteration_frame R now e) as (E & _). rewrite E. exact Hrefl.
  - destruct (story_progression_thread e); try discriminate.
    destruct (running e); injection Hstep as <-; exact Hrefl.
  - destruct (story_progression_thread e); try discriminate.
    destruct (holds_mutex (calculation_thread e)); [discriminate|].
    injection Hstep as <-. cbn.
    destruct (progressStory_block_cases R e) as [E|[_ E]]; rewrite E; exact Hrefl.
  - destruct (pending_resets e); [discriminate|]. injection Hstep as <-. exact Hrefl.
Qed.

(** C10.  The update of a character changes only its price, its recorded
    change and its time stamp; an iteration of the price loop, and every
    single step of the engine, leaves the registry with the same number of
    characters, each with its identifier, name, crew, bounty, growth rate,
    volatility, story fields and trending flag unchanged. *)
Theorem update_loop_frame (R : Runtime) :
  (forall md now c g,
      fst (update_character R md now c g)
      = Character.set_price c
          (Character.current_price (fst (update_character R md now c g)))
          (Character.weekly_change (fst (update_character R md now c g)))
          now)
  /\ (forall clk (e : PriceEngine R),
        Forall2 same_static_fields (characters e)
          (characters (calculatePrices_iteration R clk e))
        /\ List.length (characters (calculatePrices_iteration R clk e))
           = List.length (characters e))
  /\ (forall (e e' : PriceEngine R) ev,
        step R e ev = Some e' ->
        Forall2 same_static_fields (characters e) (characters e')
        /\ List.length (characters e') = List.length (characters e)).
Proof.
  split; [|split].
  - intros md now c g. rewrite update_character_eq. reflexivity.
  - intros clk e.
    assert (Forall2 same_static_fields (characters e)
              (characters (calculatePrices_iteration R clk e))) as H.
    { rewrite calculatePrices_iteration_characters.
      eapply Forall2_impl; [|apply update_characters_Forall2].
      intros c c' (now & g0 & ->). rewrite update_character_eq.
      apply same_static_fields_set_price. }
    split; [exact H|]. symmetry. eapply Forall2_length. exact H.
  - intros e e' ev Hstep.
    pose proof (step_characters_frame R e e' ev Hstep) as H.
    split; [exact H|]. symmetry. eapply Forall2_length. exact H.
Qed.

Lemma finish_iteration_quiet R now (e : PriceEngine R) :
  no_random_event R ->
  pending_resets (finish_iteration R now e) = pending_resets e
  /\ MarketData.major_event_active (market_data (finish_iteration R now e))
     = MarketData.major_event_active (market_data e).
Proof.
  intros Hq. unfold finish_iteration.
  pose proof (Hq (gen e)) as Hx.
  destruct (event_chance R (gen e)) as [x g']. cbn [fst] in Hx. rewrite Hx.
  split; reflexivity.
Qed.

Lemma step_event_stays_active R (e e' : PriceEngine R) ev :
  no_random_event R ->
  pending_resets e = 0%nat ->
  MarketData.major_event_active (market_data e) = true ->
  step R e ev = Some e' ->
  pending_resets e' = 0%nat
  /\ MarketData.major_event_active (market_data e') = true.
Proof.
  intros Hq Hp Hf Hstep.
  destruct ev; cbn [step] in Hstep.
  - destruct (caller e); try discriminate.
    destruct (running e); [injection Hstep as <-; auto|].
    destruct (_ || _)%bool; [discriminate|]. injection Hstep as <-. auto.
  - destruct (caller e); try discriminate. injection Hstep as <-. auto.
  - destruct (caller e); try discriminate.
    destruct (calculation_thread e); try discriminate; injection Hstep as <-; auto.
  - destruct (caller e); try discriminate.
    destruct (story_progression_thread e); try discriminate; injection Hstep as <-; auto.
  - destruct (calculation_thread e); try discriminate.
    destruct (running e); injection Hstep as <-; auto.
  - destruct (calculation_thread e) as [| |k| |]; try discriminate.
    destruct (nth_error (characters e) k) as [c|]; [|discriminate].
    destruct (update_character R (market_data e) now c (gen e)) as [c' g'].
    injection Hstep as <-. auto.
  - destruct (calculation_thread e) as [| |k| |]; try discriminate.
    destruct (Nat.eqb k (List.length (characters e))); [|discriminate].
    injection Hstep as <-. cbn.
    destruct (finish_iteration_quiet R now e Hq) as [E1 E2]. rewrite E1, E2. auto.
  - destruct (story_progression_thread e); try discriminate.
    destruct (running e); injection Hstep as <-; auto.
  - destruct (story_progression_thread e); try discriminate.
    destruct (holds_mutex (calculation_thread e)); [discriminate|].
    injection Hstep as <-. cbn.
    destruct (progressStory_block_cases R e) as [E|[_ E]]; rewrite E; auto.
  - rewrite Hp in Hstep. discriminate.
Qed.

Lemma run_event_stays_active R evs : forall (e e' : PriceEngine R),
  no_random_event R ->
  pending_resets e = 0%nat ->
  MarketData.major_event_active (market_data e) = true ->
  run R evs e = Some e' ->
  pending_resets e' = 0%nat
  /\ MarketData.major_event_active (market_data e') = true.
Proof.
  induction evs as [|ev evs IH]; intros e e' Hq Hp Hf Hrun; cbn [run] in Hrun.
  - injection Hrun as <-. auto.
  - destruct (step R e ev) as [e1|] eqn:E1; [|discriminate].
    destruct (step_event_stays_active R e e1 ev Hq Hp Hf E1) as [Hp1 Hf1].
    eapply IH; eassumption.
Qed.

(** C5 (the defect).  When the Event Trigger never fires and no
    deactivation thread is pending, an advance of the arc by
    [progressStory] sets the active-event flag and schedules nothing that
    clears it: the flag is still set after any further execution. *)
Theorem arc_advance_leaves_event_active (R : Runtime) :
  no_random_event R ->
  forall (e e' : PriceEngine R) evs,
    pending_resets e = 0%nat ->
    current_arc_index (progressStory_block R e) <> current_arc_index e ->
    run R evs (progressStory_block R e) = Some e' ->
    MarketData.major_event_active (market_data e') = true
    /\ pending_resets e' = 0%nat.
Proof.
  intros Hq e e' evs Hp Hadv Hrun.
  destruct (progressStory_block_cases R e) as [E|[_ E]].
  - rewrite E in Hadv. contradiction.
  - assert (pending_resets (progressStory_block R e) = 0%nat) as Hp1
      by (rewrite E; exact Hp).
    assert (MarketData.major_event_active (market_data (progressStory_block R e)) = true)
      as Hf1 by (rewrite E; reflexivity).
    destruct (run_event_stays_active R evs _ e' Hq Hp1 Hf1 Hrun). auto.
Qed.

Lemma scripted_runtime_quiet : no_random_event (scripted_runtime 0).
Proof. intros g. reflexivity. Qed.

Lemma arc_advance_leaves_event_active_witness :
  match run (scripted_runtime 0) hundred_days (main_engine (scripted_runtime 0) (0%nat, 0%nat)) with
  | Some e =>
      match run (scripted_runtime 0) (List.concat (repeat (tick_events 17) 30))
              (progressStory_block (scripted_runtime 0) e) with
      | Some e' =>
          MarketData.major_event_active (market_data e') = true
          /\ pending_resets e' = 0%nat
      | None => False
      end
  | None => False
  end.
Proof.
  destruct (run _ hundred_days _) as [e|] eqn:E1.
  - destruct (run _ (List.concat _) _) as [e'|] eqn:E2.
    + apply (arc_advance_leaves_event_active (scripted_runtime 0)
               scripted_runtime_quiet e e'
               (List.concat (repeat (tick_events 17) 30))).
      * vm_compute in E1. injection E1 as <-. reflexivity.
      * vm_compute in E1. injection E1 as <-. vm_compute. discriminate.
      * exact E2.
    + vm_compute in E1. injection E1 as <-. vm_compute in E2. discriminate E2.
  - vm_compute in E1. discriminate E1.
Defined.

(** *** Shutdown *)

Lemma run_app R evs1 : forall evs2 (e : PriceEngine R),
  run R (evs1 ++ evs2) e =
  match run R evs1 e with
  | Some e1 => run R evs2 e1
  | None => None
  end.
Proof.
  induction evs1 as [|ev evs1 IH]; intros evs2 e; cbn [run app].
  - reflexivity.
  - destruct (step R e ev); [apply IH|reflexivity].
Qed.

Lemma step_stopping_ok R (e e' : PriceEngine R) ev :
  stopping_ok e -> step R e ev = Some e' -> stopping_ok e'.
Proof.
  intros [H1 H2] Hstep. unfold stopping_ok.
  destruct ev; cbn [step] in Hstep.
  - destruct (caller e) eqn:Ec; try discriminate.
    destruct (running e); [injection Hstep as <-; rewrite Ec; split; congruence|].
    destruct (_ || _)%bool; [discriminate|]. injection Hstep as <-. cbn.
    rewrite Ec. split; congruence.
  - destruct (caller e); try discriminate. injection Hstep as <-. cbn.
    split; [discriminate|reflexivity].
  - destruct (caller e) eqn:Ec; try discriminate.
    destruct (calculation_thread e) eqn:Et; try discriminate; injection Hstep as <-; cbn;
      (split; [try rewrite Et; reflexivity|intros _; apply H2; discriminate]).
  - destruct (caller e) eqn:Ec; try discriminate.
    destruct (story_progression_thread e); try discriminate; injection Hstep as <-; cbn;
      (split; [discriminate|congruence]).
  - destruct (calculation_thread e) eqn:Et; try discriminate.
    destruct (running e) eqn:Er; injection Hstep as <-; cbn.
    + split; intros Hc; exfalso;
        assert (true = false) as Habs by (apply H2; congruence); discriminate Habs.
    + split; [intros Hc; specialize (H1 Hc); discriminate H1|intros _; exact Er].
  - destruct (calculation_thread e) as [| |k| |] eqn:Et; try discriminate.
    destruct (nth_error (characters e) k) as [c|]; [|discriminate].
    destruct (update_character R (market_data e) now c (gen e)) as [c' g'].
    injection Hstep as <-. cbn. split; [|exact H2].
    intros Hc. specialize (H1 Hc). discriminate.
  - destruct (calculation_thread e) as [| |k| |] eqn:Et; try discriminate.
    destruct (Nat.eqb k (List.length (characters e))); [|discriminate].
    injection Hstep as <-. cbn.
    destruct (finish_iteration_frame R now e) as (_ & _ & _ & Er & _ & _ & Ec).
    rewrite Er, Ec. split; [|exact H2].
    intros Hc. specialize (H1 Hc). discriminate.
  - destruct (story_progression_thread e); try discriminate.
    destruct (running e) eqn:Er; injection Hstep as <-; cbn;
      (split; [exact H1|intros Hc; rewrite Er; exact (H2 Hc)]).
  - destruct (story_progression_thread e); try discriminate.
    destruct (holds_mutex (calculation_thread e)); [discriminate|].
    injection Hstep as <-. cbn.
    destruct (progressStory_block_cases R e) as [E|[_ E]]; rewrite E; cbn; split; assumption.
  - destruct (pending_resets e); [discriminate|]. injection Hstep as <-. cbn.
    split; assumption.
Qed.

Lemma run_stopping_ok R evs : forall (e e' : PriceEngine R),
  stopping_ok e -> run R evs e = Some e' -> stopping_ok e'.
Proof.
  induction evs as [|ev evs IH]; intros e e' H Hrun; cbn [run] in Hrun.
  - injection Hrun as <-. exact H.
  - destruct (step R e ev) as [e1|] eqn:E1; [|discriminate].
    eapply IH; [|exact Hrun]. eapply step_stopping_ok; eassumption.
Qed.

Lemma step_after_stop R (e e' : PriceEngine R) ev :
  threads_stopped e = true -> is_start ev = false ->
  step R e ev = Some e' ->
  characters e' = characters e /\ threads_stopped e' = true.
Proof.
  unfold threads_stopped. intros Hs Hev Hstep.
  apply andb_true_iff in Hs. destruct Hs as [Hc Hst].
  apply negb_true_iff in Hc, Hst.
  destruct ev; cbn [step] in Hstep; try discriminate Hev.
  - destruct (caller e); try discriminate. injection Hstep as <-. cbn.
    rewrite Hc, Hst. split; reflexivity.
  - destruct (caller e); try discriminate.
    destruct (calculation_thread e) eqn:Et; try discriminate; injection Hstep as <-; cbn;
      rewrite ?Et, ?Hst; split; reflexivity.
  - destruct (caller e); try discriminate.
    destruct (story_progression_thread e) eqn:Et; try discriminate; injection Hstep as <-; cbn;
      rewrite ?Et, ?Hc; split; reflexivity.
  - destruct (calculation_thread e); discriminate.
  - destruct (calculation_thread e); discriminate.
  - destruct (calculation_thread e); discriminate.
  - destruct (story_progression_thread e); discriminate.
  - destruct (story_progression_thread e); discriminate.
  - destruct (pending_resets e); [discriminate|]. injection Hstep as <-. cbn.
    rewrite Hc, Hst. split; reflexivity.
Qed.

(** C9, as amended.  When [stopPriceCalculation] returns, both loop
    threads are joined, [running] is false and the caller is idle; from a
    state whose loop threads are stopped, no execution without a new
    [startPriceCalculation] changes the registry, whatever deactivation
    threads still wake up. *)
Theorem shutdown_joins_the_loops (R : Runtime) :
  (forall (e0 e : PriceEngine R) evs,
      caller e0 = Idle ->
      run R (evs ++ [EStopJoinStory]) e0 = Some e ->
      threads_stopped e = true /\ running e = false /\ caller e = Idle)
  /\ (forall (e e' : PriceEngine R) evs,
        threads_stopped e = true ->
        forallb (fun ev => negb (is_start ev)) evs = true ->
        run R evs e = Some e' ->
        characters e' = characters e /\ threads_stopped e' = true).
Proof.
  split.
  - intros e0 e evs H0 Hrun. rewrite run_app in Hrun.
    destruct (run R evs e0) as [e1|] eqn:E1; [|discriminate].
    assert (stopping_ok e0) as Hok0.
    { split; intros H; congruence. }
    destruct (run_stopping_ok R evs e0 e1 Hok0 E1) as [H1 H2].
    cbn [run step] in Hrun.
    destruct (caller e1) eqn:Ec; try discriminate.
    specialize (H1 eq_refl). specialize (H2 ltac:(discriminate)).
    unfold threads_stopped.
    destruct (story_progression_thread e1) eqn:Et; try discriminate;
      injection Hrun as <-; cbn; rewrite ?Et, H1, H2; auto.
  - intros e e' evs. revert e.
    induction evs as [|ev evs IH]; intros e Hs Hev Hrun; cbn [run] in Hrun.
    + injection Hrun as <-. auto.
    + cbn [forallb] in Hev. apply andb_true_iff in Hev. destruct Hev as [Hev1 Hev2].
      apply negb_true_iff in Hev1.
      destruct (step R e ev) as [e1|] eqn:E1; [|discriminate].
      destruct (step_after_stop R e e1 ev Hs Hev1 E1) as [Hc1 Hs1].
      destruct (IH e1 Hs1 Hev2 Hrun) as [Hc2 Hs2].
      split; [congruence|exact Hs2].
Qed.

Lemma shutdown_joins_the_loops_witness :
  match run (scripted_runtime 1) tick_then_stop
          (main_engine (scripted_runtime 1) (0%nat, 0%nat)) with
  | Some e =>
      (threads_stopped e = true /\ running e = false /\ caller e = Idle)
      /\ match run (scripted_runtime 1) [EResetEvent; EStopBegin] e with
         | Some e' => characters e' = characters e /\ threads_stopped e' = true
         | None => False
         end
  | None => False
  end.
Proof.
  destruct (shutdown_joins_the_loops (scripted_runtime 1)) as [H1 H2].
  destruct (run _ tick_then_stop _) as [e|] eqn:E1.
  - assert (threads_stopped e = true /\ running e = false /\ caller e = Idle) as Hs.
    { apply (H1 (main_engine (scripted_runtime 1) (0%nat, 0%nat)) e
               (removelast tick_then_stop)).
      - reflexivity.
      - exact E1. }
    split; [exact Hs|].
    destruct (run _ [EResetEvent; EStopBegin] e) as [e'|] eqn:E2.
    + apply (H2 e e' [EResetEvent; EStopBegin]).
      * apply Hs.
      * reflexivity.
      * exact E2.
    + vm_compute in E1. injection E1 as <-. vm_compute in E2. discriminate E2.
  - vm_compute in E1. discriminate E1.
Defined.

(** C9, counterexample.  After one iteration in which the Event Trigger
    fired, [stopPriceCalculation] runs to its return: both loop threads are
    joined, and the detached deactivation thread is still pending; it then
    wakes and clears the flag. *)
Lemma shutdown_leaves_reset_pending :
  match run (scripted_runtime 1) tick_then_stop
          (main_engine (scripted_runtime 1) (0%nat, 0%nat)) with
  | Some e =>
      threads_stopped e = true /\ caller e = Idle
      /\ pending_resets e = 1%nat
      /\ MarketData.major_event_active (market_data e) = true
      /\ match step (scripted_runtime 1) e EResetEvent with
         | Some e' => MarketData.major_event_active (market_data e') = false
         | None => False
         end
  | None => False
  end.
Proof. vm_compute. repeat split. Qed.

Lemma map_replace_nth {A B} (f : A -> B) k x l :
  map f (replace_nth k x l) = replace_nth k (f x) (map f l).
Proof.
  revert k. induction l as [|y l IH]; intros k; destruct k; cbn [replace_nth map];
    try reflexivity. rewrite IH. reflexivity.
Qed.

Lemma prices_forget_clock R (e : PriceEngine R) :
  prices (forget_clock e) = prices e.
Proof.
  unfold prices, forget_clock. cbn. rewrite map_map. apply map_ext. reflexivity.
Qed.

Lemma finish_iteration_forget R now (e : PriceEngine R) :
  finish_iteration R 0 (forget_clock e) = forget_clock (finish_iteration R now e).
Proof.
  unfold finish_iteration, triggerMajorEvent. cbn.
  destruct (event_chance R (gen e)) as [x g'].
  destruct (x <? 0.1)%float; cbn.
  - destruct (gen_call R g') as [n g'']. reflexivity.
  - reflexivity.
Qed.

Lemma progressStory_block_forget R (e : PriceEngine R) :
  progressStory_block R (forget_clock e) = forget_clock (progressStory_block R e).
Proof.
  unfold progressStory_block. cbn.
  destruct (_ && _)%bool; [|reflexivity].
  destruct (_ <? _); reflexivity.
Qed.

Lemma step_forget_clock R (e : PriceEngine R) ev :
  step R (forget_clock e) (forget_clock_event ev)
  = option_map forget_clock (step R e ev).
Proof.
  destruct ev; cbn [step forget_clock_event].
  - cbn. destruct (caller e); try reflexivity.
    destruct (running e); [reflexivity|].
    destruct (_ || _)%bool; reflexivity.
  - cbn. destruct (caller e); reflexivity.
  - cbn. destruct (caller e); try reflexivity.
    destruct (calculation_thread e); reflexivity.
  - cbn. destruct (caller e); try reflexivity.
    destruct (story_progression_thread e); reflexivity.
  - cbn. destruct (calculation_thread e); try reflexivity.
    destruct (running e); reflexivity.
  - change (calculation_thread (forget_clock e)) with (calculation_thread e).
    destruct (calculation_thread e) as [| |k| |]; try reflexivity.
    change (characters (forget_clock e)) with (map forget_clock_character (characters e)).
    rewrite nth_error_map.
    destruct (nth_error (characters e) k) as [c|]; [|reflexivity].
    cbn [option_map]. rewrite !update_character_eq. cbn [option_map].
    f_equal. unfold forget_clock. cbn. rewrite map_replace_nth. reflexivity.
  - change (calculation_thread (forget_clock e)) with (calculation_thread e).
    destruct (calculation_thread e) as [| |k| |]; try reflexivity.
    change (characters (forget_clock e)) with (map forget_clock_character (characters e)).
    rewrite length_map.
    destruct (Nat.eqb k (List.length (characters e))); [|reflexivity].
    cbn [option_map]. rewrite (finish_iteration_forget R now e). reflexivity.
  - cbn. destruct (story_progression_thread e); try reflexivity.
    destruct (running e); reflexivity.
  - change (story_progression_thread (forget_clock e)) with (story_progression_thread e).
    destruct (story_progression_thread e); try reflexivity.
    change (calculation_thread (forget_clock e)) with (calculation_thread e).
    destruct (holds_mutex (calculation_thread e)); [reflexivity|].
    cbn [option_map]. rewrite progressStory_block_forget. reflexivity.
  - cbn. destruct (pending_resets e); reflexivity.
Qed.

Lemma same_kind_forget a b :
  same_kind a b = true -> forget_clock_event a = forget_clock_event b.
Proof. destruct a, b; cbn; intros H; try discriminate; reflexivity. Qed.

Lemma same_kind_calc a b :
  same_kind a b = true ->
  match a with ECalcCharacter _ => true | _ => false end
  = match b with ECalcCharacter _ => true | _ => false end.
Proof. destruct a, b; cbn; intros H; try discriminate; reflexivity. Qed.

Lemma Some_eq {A} (a b : A) : Some a = Some b -> a = b.
Proof. intros H. congruence. Qed.

(** C8, as amended.  Two runs from engines that differ at most in their
    time stamps (hence with the same generator state), under schedules that
    are the same steps in the same order, produce the same sequence of
    prices. *)
Theorem schedule_determines_prices (R : Runtime) :
  forall evs1 evs2 (e1 e2 : PriceEngine R),
    forget_clock e1 = forget_clock e2 ->
    same_schedule evs1 evs2 = true ->
    price_trace R evs1 e1 = price_trace R evs2 e2.
Proof.
  induction evs1 as [|a evs1 IH]; intros evs2 e1 e2 He Hs;
    destruct evs2 as [|b evs2]; cbn [same_schedule] in Hs; try discriminate.
  - reflexivity.
  - apply andb_true_iff in Hs. destruct Hs as [Hk Hs].
    cbn [price_trace].
    pose proof (step_forget_clock R e1 a) as S1.
    pose proof (step_forget_clock R e2 b) as S2.
    rewrite He, (same_kind_forget a b Hk), S2 in S1.
    destruct (step R e1 a) as [x|], (step R e2 b) as [y|]; cbn [option_map] in S1;
      try discriminate; [|reflexivity].
    apply Some_eq in S1. symmetry in S1.
    rewrite (IH evs2 x y S1 Hs).
    assert (prices x = prices y) as Hp.
    { rewrite <- (prices_forget_clock R x), <- (prices_forget_clock R y), S1. reflexivity. }
    rewrite Hp.
    destruct a, b; cbn in Hk; try discriminate; reflexivity.
Qed.

Lemma schedule_determines_prices_witness :
  price_trace (scripted_runtime 1)
    (EStart :: ECalcLoop :: repeat (ECalcCharacter 7) 17 ++ [ECalcFinish 8])
    (loadCharacters (scripted_runtime 1) (fun k => Z.of_nat k)
       (PriceEngine_new (scripted_runtime 1) (0%nat, 0%nat) 5))
  = price_trace (scripted_runtime 1) (EStart :: tick_events 17)
      (main_engine (scripted_runtime 1) (0%nat, 0%nat)).
Proof.
  apply schedule_determines_prices; reflexivity.
Defined.

(** C8, counterexample.  From the same engine with the same generator
    state, two runs that both complete twelve iterations of the price loop
    produce different price sequences: they differ in when the deactivation
    thread of the first random event wakes. *)
Lemma interleaving_changes_prices :
  ticks_completed late_reset = ticks_completed early_reset
  /\ price_trace (scripted_runtime 1) late_reset
       (main_engine (scripted_runtime 1) (0%nat, 0%nat))
     <> price_trace (scripted_runtime 1) early_reset
          (main_engine (scripted_runtime 1) (0%nat, 0%nat)).
Proof.
  split; [reflexivity|]. intros H.
  apply (f_equal (fun t => (nth 16 (last t []) 0 <? 200)%float)) in H.
  vm_compute in H. discriminate H.
Qed.

Lemma price_model_matches_specification_witness :
  fst (calculateNewPrice (scripted_runtime 0)
         (MarketData.set_current_arc (MarketData.new 0) "Wano Country Saga")
         (Character.set_price
            (Character.new 1 "Monkey D. Luffy" "Straw Hat Pirates" 3000000000 0.15 0)
            5.0 0.0 0)
         (0%nat, 0%nat))
  = price_model_spec (scripted_runtime 0)
      (MarketData.set_current_arc (MarketData.new 0) "Wano Country Saga")
      (Character.set_price
         (Character.new 1 "Monkey D. Luffy" "Straw Hat Pirates" 3000000000 0.15 0)
         5.0 0.0 0)
      0.0.
Proof.
  apply (proj1 (price_model_matches_specification (scripted_runtime 0)
                  (MarketData.set_current_arc (MarketData.new 0) "Wano Country Saga")
                  (Character.set_price
                     (Character.new 1 "Monkey D. Luffy" "Straw Hat Pirates"
                        3000000000 0.15 0)
                     5.0 0.0 0)
                  (0%nat, 0%nat)
                  ltac:(reflexivity)
                  ltac:(split; vm_compute; [discriminate|reflexivity]))).
Defined.

Lemma update_loop_frame_witness :
  match step (scripted_runtime 0)
          (with_calculation_thread (scripted_runtime 0)
             (main_engine (scripted_runtime 0) (0%nat, 0%nat)) (Body 3))
          (ECalcCharacter 9) with
  | Some e' =>
      Forall2 same_static_fields
        (characters (main_engine (scripted_runtime 0) (0%nat, 0%nat))) (characters e')
      /\ List.length (characters e') = 17%nat
  | None => False
  end.
Proof.
  destruct (step _ _ _) as [e'|] eqn:E.
  - apply (proj2 (proj2 (update_loop_frame (scripted_runtime 0))) _ e' _ E).
  - vm_compute in E. discriminate E.
Defined.

(** * Further properties of the engine *)

Lemma is_nanb_eq x : is_nanb x = true -> x = S754_nan.
Proof. destruct x; try discriminate. reflexivity. Qed.

Lemma nan_ltb_l (x y : float) : is_nan x = true -> (x <? y)%float = false.
Proof.
  rewrite is_nan_spec, ltb_spec. intros H. rewrite (is_nanb_eq _ H). reflexivity.
Qed.

Lemma nan_ltb_r (x y : float) : is_nan y = true -> (x <? y)%float = false.
Proof.
  rewrite is_nan_spec, ltb_spec. intros H. rewrite (is_nanb_eq _ H).
  unfold SFltb. destruct (Prim2SF x); reflexivity.
Qed.

Lemma nan_eqb_l (x y : float) : is_nan x = true -> (x =? y)%float = false.
Proof.
  rewrite is_nan_spec, eqb_spec. intros H. rewrite (is_nanb_eq _ H). reflexivity.
Qed.

Lemma is_nan_cases (x : float) : is_nan x = true \/ is_nan x = false.
Proof. destruct (is_nan x); auto. Qed.

Lemma clamp_price_of_nan (p : float) : is_nan p = true -> clamp_price p = p.
Proof.
  intros Hn. unfold clamp_price, cpp_max, cpp_min.
  rewrite (nan_ltb_l p _ Hn), (nan_ltb_r _ p Hn). reflexivity.
Qed.

Lemma price_in_range_not_nan (p : float) : price_in_range p = true -> is_nan p = false.
Proof.
  intros Hr. unfold price_in_range in Hr. apply andb_true_iff in Hr.
  apply (leb_not_nan_r _ _ (proj1 Hr)).
Qed.

Lemma clamp_price_is_nan (p : float) : is_nan (clamp_price p) = is_nan p.
Proof.
  destruct (is_nan_cases p) as [Hn|Hn].
  - rewrite (clamp_price_of_nan p Hn). reflexivity.
  - rewrite Hn. apply price_in_range_not_nan. apply clamp_price_range. exact Hn.
Qed.

(** The clamp returns a NaN exactly when it is given one, and is the
    identity on its own results. *)
Theorem clamp_price_nan_and_idempotence (p : float) :
  is_nan (clamp_price p) = is_nan p
  /\ clamp_price (clamp_price p) = clamp_price p
  /\ (is_nan p = false -> price_in_range (clamp_price p) = true).
Proof.
  split; [apply clamp_price_is_nan|]. split.
  - destruct (is_nan_cases p) as [Hn|Hn].
    + rewrite !(clamp_price_of_nan p Hn). reflexivity.
    + apply clamp_price_id. apply clamp_price_range. exact Hn.
  - apply clamp_price_range.
Qed.

Lemma clamp_price_nan_and_idempotence_witness :
  price_in_range (clamp_price (-3.5)) = true.
Proof.
  apply (proj2 (proj2 (clamp_price_nan_and_idempotence (-3.5)))). reflexivity.
Defined.

Lemma SFeqb_zero_lt_pos x m e :
  SFeqb x (S754_zero false) = true -> SFltb x (S754_finite false m e) = true.
Proof.
  unfold SFeqb, SFltb.
  destruct x as [s|s| |s m' e']; cbn [SFcompare]; try (destruct s; discriminate);
    try discriminate.
  reflexivity.
Qed.

Lemma price_in_range_nonzero (p : float) :
  price_in_range p = true -> (p =? 0)%float = false.
Proof.
  intros H. apply price_in_range_spec in H. destruct H as [H _].
  destruct (p =? 0)%float eqn:E; [|reflexivity].
  pose proof (leb_ltb_false _ _ H) as Hlt.
  rewrite ltb_spec in Hlt. rewrite eqb_spec in E.
  change (Prim2SF 0) with (S754_zero false) in E.
  change (Prim2SF 0.01) with (S754_finite false 5764607523034235 (-59)) in Hlt.
  rewrite (SFeqb_zero_lt_pos _ _ _ E) in Hlt. discriminate.
Qed.

(** The price model never returns zero, whatever its inputs. *)
Theorem calculateNewPrice_never_zero (R : Runtime) md c g :
  (fst (calculateNewPrice R md c g) =? 0.0)%float = false.
Proof.
  assert (forall x, (clamp_price x =? 0)%float = false) as Hc.
  { intros x. destruct (is_nan_cases (clamp_price x)) as [Hn|Hn].
    - apply nan_eqb_l. exact Hn.
    - apply price_in_range_nonzero.
      apply clamp_price_range. rewrite <- (clamp_price_is_nan x). exact Hn. }
  unfold calculateNewPrice, bind, ret.
  destruct (price_volatility R g) as [z g1].
  destruct (Character.current_price c =? 0.0)%float.
  - destruct (growth_factor R g1) as [u g2]. cbn [fst]. apply Hc.
  - cbn [fst]. apply Hc.
Qed.

Lemma calculateNewPrice_nonzero_branch (R : Runtime) md c g :
  (Character.current_price c =? 0.0)%float = false ->
  fst (calculateNewPrice R md c g)
  = clamp_price (price_before_event R md c (fst (price_volatility R g))
                 * event_factor_of md)%float.
Proof.
  intros E0. unfold calculateNewPrice, price_before_event, bind, ret.
  destruct (price_volatility R g) as [z g1]. rewrite E0. reflexivity.
Qed.

(** With the same draws, the price before the clamp is exactly 1.5 times
    larger when the active-event flag is set than when it is clear. *)
Theorem event_flag_multiplies_by_one_and_a_half (R : Runtime) md c g :
  (Character.current_price c =? 0.0)%float = false ->
  fst (calculateNewPrice R (MarketData.set_major_event_active md false) c g)
  = clamp_price (price_before_event R md c (fst (price_volatility R g)))
  /\ fst (calculateNewPrice R (MarketData.set_major_event_active md true) c g)
     = clamp_price (price_before_event R md c (fst (price_volatility R g)) * 1.5)%float.
Proof.
  intros E0. rewrite !calculateNewPrice_nonzero_branch by exact E0.
  split.
  - unfold event_factor_of. cbn [MarketData.major_event_active MarketData.set_major_event_active].
    rewrite mul_one_r. reflexivity.
  - reflexivity.
Qed.

Lemma event_flag_multiplies_by_one_and_a_half_witness :
  fst (calculateNewPrice (scripted_runtime 0)
         (MarketData.set_major_event_active (MarketData.new 0) true)
         (Character.set_price (Character.new 15 "Akainu" "Marines" 0 0.16 0) 20.0 0.0 0)
         (0%nat, 0%nat))
  = 34.8%float.
Proof.
  destruct (event_flag_multiplies_by_one_and_a_half (scripted_runtime 0)
              (MarketData.new 0)
              (Character.set_price (Character.new 15 "Akainu" "Marines" 0 0.16 0) 20.0 0.0 0)
              (0%nat, 0%nat) eq_refl) as [_ H].
  cbn [MarketData.set_major_event_active MarketData.new] in *.
  etransitivity; [exact H|]. reflexivity.
Defined.

Lemma SFltb_leb_trans x y z :
  SFltb x y = true -> SFleb y z = true -> SFltb x z = true.
Proof.
  unfold SFleb, SFltb.
  destruct x as [sx|sx| |sx mx ex], y as [sy|sy| |sy my ey], z as [sz|sz| |sz mz ez];
    cbn [SFcompare]; try discriminate; try reflexivity;
    try (destruct sx; try discriminate; try reflexivity);
    try (destruct sy; try discriminate; try reflexivity);
    try (destruct sz; try discriminate; try reflexivity);
    intros H1 H2;
    cmp_cases; cbn [CompOpp] in *; try discriminate; try reflexivity; try lia.
Qed.

Lemma ltb_leb_trans (x y z : float) :
  (x <? y)%float = true -> (y <=? z)%float = true -> (x <? z)%float = true.
Proof. rewrite !ltb_spec, leb_spec. apply SFltb_leb_trans. Qed.

(** The first update of a character records a change of exactly 100. *)
Theorem first_update_records_hundred_percent (R : Runtime) md now c g :
  growth_draws_in_range R ->
  (Character.current_price c =? 0.0)%float = true ->
  Character.weekly_change (fst (update_character R md now c g)) = 100.0%float.
Proof.
  intros Hgr E0. rewrite update_character_eq.
  cbn [fst Character.weekly_change Character.set_price].
  unfold percent_change. rewrite (eqb_zero_ltb _ E0).
  assert ((0 <? fst (calculateNewPrice R md c g))%float = true) as ->; [|reflexivity].
  pose proof (update_character_bootstrap R md now c g Hgr E0) as Hb.
  rewrite update_character_eq in Hb.
  cbn [fst Character.current_price Character.set_price] in Hb.
  unfold in_bootstrap_range in Hb. apply andb_true_iff in Hb. destruct Hb as [Hb _].
  eapply ltb_leb_trans; [|exact Hb]. reflexivity.
Qed.

Lemma first_update_records_hundred_percent_witness :
  Character.weekly_change
    (fst (update_character (scripted_runtime 0) (MarketData.new 0) 3
            (Character.new 3 "Nami" "Straw Hat Pirates" 366000000 0.08 0) (0%nat, 0%nat)))
  = 100.0%float.
Proof.
  apply (first_update_records_hundred_percent (scripted_runtime 0)).
  - apply (proj1 (proj2 (scripted_runtime_ok 0))).
  - reflexivity.
Defined.

Lemma replace_nth_app {A} (pre : list A) x y suf :
  replace_nth (List.length pre) y (pre ++ x :: suf) = pre ++ y :: suf.
Proof.
  induction pre as [|a pre IH]; cbn [List.length app replace_nth].
  - reflexivity.
  - rewrite IH. reflexivity.
Qed.

Lemma nth_error_app_here {A} (pre : list A) x suf :
  nth_error (pre ++ x :: suf) (List.length pre) = Some x.
Proof.
  induction pre as [|a pre IH]; cbn [List.length app nth_error]; auto.
Qed.

(** The updates of the characters from position [length pre] on, as
    events, do what the loop of [update_characters] does. *)
Lemma run_character_events R clk suf : forall pre md run_ st g idx pend cl,
  run R (map (fun k => ECalcCharacter (clk k)) (seq (List.length pre) (List.length suf)))
      (mkEngine (pre ++ suf) md run_ (Body (List.length pre)) st g idx pend cl)
  = Some (mkEngine (pre ++ fst (update_characters R md clk (List.length pre) suf g))
            md run_ (Body (List.length pre + List.length suf)) st
            (snd (update_characters R md clk (List.length pre) suf g)) idx pend cl).
Proof.
  induction suf as [|c suf IH]; intros pre md run_ st g idx pend cl.
  - cbn. rewrite Nat.add_0_r. reflexivity.
  - cbn [List.length seq map run step calculation_thread characters market_data gen].
    rewrite nth_error_app_here.
    cbn [update_characters]. unfold bind, ret.
    destruct (update_character R md (clk (List.length pre)) c g) as [c' g1] eqn:E1.
    unfold with_calculation_thread, with_gen, with_characters.
    cbn [characters market_data running
         calculation_thread story_progression_thread gen current_arc_index pending_resets caller].
    rewrite replace_nth_app.
    specialize (IH (pre ++ [c']) md run_ st g1 idx pend cl).
    rewrite length_app in IH. cbn [List.length] in IH.
    replace (List.length pre + 1)%nat with (S (List.length pre)) in IH by lia.
    rewrite <- app_assoc in IH. cbn [app] in IH. rewrite IH.
    destruct (update_characters R md clk (S (List.length pre)) suf g1) as [cs' g2].
    cbn [fst snd]. rewrite <- app_assoc. cbn [app].
    replace (S (List.length pre) + List.length suf)%nat
      with (List.length pre + S (List.length suf))%nat by lia.
    reflexivity.
Qed.

(** An iteration of the price loop during which no other thread takes a
    step is [calculatePrices_iteration]. *)
Theorem iteration_events_run_the_iteration (R : Runtime) clk (e : PriceEngine R) :
  calculation_thread e = LoopHead ->
  running e = true ->
  run R (iteration_events clk (List.length (characters e))) e
  = Some (calculatePrices_iteration R clk e).
Proof.
  intros Ht Hr. destruct e as [cs md run_ ct st g idx pend cl].
  cbn in Ht, Hr. subst ct run_.
  unfold iteration_events. cbn [run step calculation_thread running characters].
  unfold with_calculation_thread, with_market_data.
  cbn [characters market_data running
       calculation_thread story_progression_thread gen current_arc_index pending_resets caller].
  rewrite run_app.
  pose proof (run_character_events R clk cs [] (advance_day md) true st g idx pend cl) as H.
  cbn [List.length app] in H. rewrite H. clear H.
  cbn [run step calculation_thread characters].
  unfold calculatePrices_iteration.
  cbn [with_market_data characters market_data running calculation_thread
       story_progression_thread gen current_arc_index pending_resets caller].
  destruct (update_characters R (advance_day md) clk 0 cs g) as [cs' g'] eqn:E.
  cbn [fst snd with_gen with_characters characters market_data running calculation_thread
       story_progression_thread gen current_arc_index pending_resets caller].
  assert (List.length cs' = List.length cs) as Hl.
  { pose proof (update_characters_Forall2 R (advance_day md) clk cs 0%nat g) as H2.
    rewrite E in H2. cbn [fst] in H2. symmetry. eapply Forall2_length. exact H2. }
  rewrite Hl, Nat.eqb_refl.
  f_equal.
  destruct (finish_iteration_frame R (clk (List.length cs))
              (mkEngine cs' (advance_day md) true (Body (List.length cs)) st g' idx pend cl))
    as (_ & _ & _ & _ & Ect & _).
  unfold finish_iteration, triggerMajorEvent in *.
  cbn [gen with_gen with_market_data with_pending_resets with_calculation_thread
       characters market_data running calculation_thread
       story_progression_thread gen current_arc_index pending_resets caller] in *.
  destruct (event_chance R g') as [x g2].
  destruct (x <? 0.1)%float.
  - cbn [gen with_gen with_market_data with_pending_resets with_calculation_thread
       characters market_data running calculation_thread
       story_progression_thread gen current_arc_index pending_resets caller].
    destruct (gen_call R g2) as [n g3]. reflexivity.
  - reflexivity.
Qed.

(** Case analysis of a step that succeeded. *)
Ltac step_cases H :=
  repeat match type of H with
  | None = Some _ => discriminate H
  | Some _ = Some ?y => apply Some_eq in H; subst y
  | context [match ?x with _ => _ end] =>
      lazymatch x with
      | context [match _ with _ => _ end] => fail
      | _ => destruct x eqn:?
      end
  end.

(** Projections of an updated engine. *)
Ltac engine_simpl :=
  unfold reset_event in *;
  unfold with_characters, with_market_data, with_running, with_calculation_thread,
    with_story_thread, with_gen, with_arc_index, with_pending_resets, with_caller in *;
  cbn [characters market_data running calculation_thread story_progression_thread
       gen current_arc_index pending_resets caller
       MarketData.days_elapsed MarketData.current_year MarketData.current_arc
       MarketData.major_event_active MarketData.last_update
       MarketData.set_major_event_active MarketData.set_current_arc
       MarketData.set_last_update MarketData.set_days] in *.

Lemma wrap_int_small z : - 2 ^ 31 <= z < 2 ^ 31 -> wrap_int z = z.
Proof. intros H. unfold wrap_int. rewrite Z.mod_small; lia. Qed.

Lemma advance_day_calendar md :
  calendar_consistent md ->
  MarketData.days_elapsed md < 2 ^ 31 - 1 ->
  calendar_consistent (advance_day md)
  /\ MarketData.days_elapsed (advance_day md) = MarketData.days_elapsed md + 1.
Proof.
  intros [Hd Hy] Hlt. unfold advance_day, calendar_consistent.
  cbn [MarketData.days_elapsed MarketData.current_year MarketData.set_days].
  rewrite wrap_int_small by lia.
  split; [|reflexivity]. split; [lia|].
  rewrite Z.rem_mod_nonneg by lia.
  assert (0 <= 365 * (MarketData.days_elapsed md / 365) <= MarketData.days_elapsed md) as Hq.
  { clear Hy Hlt. Z.div_mod_to_equations. lia. }
  destruct ((MarketData.days_elapsed md + 1) mod 365 =? 0) eqn:E.
  - apply Z.eqb_eq in E. rewrite wrap_int_small by lia. rewrite Hy.
    Z.div_mod_to_equations. lia.
  - apply Z.eqb_neq in E. rewrite Hy. Z.div_mod_to_equations. lia.
Qed.

Lemma finish_iteration_calendar R now (e : PriceEngine R) :
  MarketData.days_elapsed (market_data (finish_iteration R now e))
  = MarketData.days_elapsed (market_data e)
  /\ MarketData.current_year (market_data (finish_iteration R now e))
     = MarketData.current_year (market_data e).
Proof.
  unfold finish_iteration, triggerMajorEvent.
  destruct (event_chance R (gen e)) as [x g'].
  destruct (x <? 0.1)%float; cbn.
  - destruct (gen_call R g') as [n g'']. split; reflexivity.
  - split; reflexivity.
Qed.

Lemma progressStory_block_calendar R (e : PriceEngine R) :
  MarketData.days_elapsed (market_data (progressStory_block R e))
  = MarketData.days_elapsed (market_data e)
  /\ MarketData.current_year (market_data (progressStory_block R e))
     = MarketData.current_year (market_data e).
Proof.
  destruct (progressStory_block_cases R e) as [E|[_ E]]; rewrite E; split; reflexivity.
Qed.

Lemma step_calendar R (e e' : PriceEngine R) ev :
  calendar_consistent (market_data e) ->
  MarketData.days_elapsed (market_data e)
  + Z.of_nat (if begins_day e ev then 1 else 0) < 2 ^ 31 ->
  step R e ev = Some e' ->
  calendar_consistent (market_data e')
  /\ MarketData.days_elapsed (market_data e')
     = MarketData.days_elapsed (market_data e)
       + Z.of_nat (if begins_day e ev then 1 else 0).
Proof.
  intros Hc Hlt Hstep.
  destruct (finish_iteration_calendar R 0 e) as [Hf1 Hf2].
  destruct (progressStory_block_calendar R e) as [Hp1 Hp2].
  assert (forall md', MarketData.days_elapsed md' = MarketData.days_elapsed (market_data e) ->
                      MarketData.current_year md' = MarketData.current_year (market_data e) ->
                      calendar_consistent md') as Hsame.
  { intros md' E1 E2. unfold calendar_consistent. rewrite E1, E2. exact Hc. }
  unfold begins_day in *.
  destruct ev; cbn [step] in Hstep; step_cases Hstep; engine_simpl;
    rewrite ?Hp1, ?(proj1 (finish_iteration_calendar R _ e));
    cbn [Z.of_nat] in *; rewrite ?Z.add_0_r;
    try (split; [apply Hsame; reflexivity|reflexivity]).
  - change (Z.pos (Pos.of_succ_nat 0)) with 1 in *.
    apply advance_day_calendar; [exact Hc|lia].
  - split; [|reflexivity]. apply Hsame; apply (finish_iteration_calendar R now e).
  - split; [|reflexivity]. apply Hsame; apply (progressStory_block_calendar R e).
Qed.

Lemma days_begun_length R : forall evs (e : PriceEngine R),
  (days_begun R evs e <= List.length evs)%nat.
Proof.
  induction evs as [|ev evs IH]; intros e; cbn [days_begun List.length]; [lia|].
  destruct (step R e ev) as [e1|]; [|lia].
  specialize (IH e1). destruct (begins_day e ev); lia.
Qed.

(** In every run in which the day counter stays an [int], that is, in
    which the counter at the start plus the number of iterations of the
    price loop begun is below 2^31, the simulated year is 1 plus the whole
    number of 365-day years elapsed, and the day counter is the counter at
    the start plus the number of iterations begun: it never decreases and
    grows by at most one per step. *)
Theorem calendar_follows_days (R : Runtime) :
  forall evs (e0 e : PriceEngine R),
    calendar_consistent (market_data e0) ->
    MarketData.days_elapsed (market_data e0) + Z.of_nat (days_begun R evs e0) < 2 ^ 31 ->
    run R evs e0 = Some e ->
    calendar_consistent (market_data e)
    /\ MarketData.days_elapsed (market_data e)
       = MarketData.days_elapsed (market_data e0) + Z.of_nat (days_begun R evs e0)
    /\ (days_begun R evs e0 <= List.length evs)%nat.
Proof.
  intros evs e0 e Hc Hlt Hrun.
  split; [|split; [|apply days_begun_length]]; revert e0 e Hc Hlt Hrun;
    (induction evs as [|ev evs IH]; intros e0 e Hc Hlt Hrun;
     cbn [run days_begun] in Hrun, Hlt |- *;
     [ apply Some_eq in Hrun; subst; first [exact Hc | cbn; lia]
     | destruct (step R e0 ev) as [e1|] eqn:E1; [|discriminate];
       rewrite Nat2Z.inj_add in Hlt;
       pose proof (Zle_0_nat (days_begun R evs e1)) as Hpos;
       destruct (step_calendar R e0 e1 ev Hc ltac:(lia) E1) as [Hc1 Hd1];
       pose proof (IH e1 e Hc1 ltac:(lia) Hrun) as H2 ]).
  - exact H2.
  - rewrite Nat2Z.inj_add. lia.
Qed.

Lemma calendar_follows_days_witness :
  match run (scripted_runtime 0) (EStart :: List.concat (repeat (tick_events 17) 366))
          (main_engine (scripted_runtime 0) (0%nat, 0%nat)) with
  | Some e =>
      calendar_consistent (market_data e)
      /\ MarketData.days_elapsed (market_data e) = 366
      /\ MarketData.current_year (market_data e) = 2
  | None => False
  end.
Proof.
  destruct (run _ _ _) as [e|] eqn:E.
  - pose proof (calendar_follows_days (scripted_runtime 0)
                  (EStart :: List.concat (repeat (tick_events 17) 366))
                  (main_engine (scripted_runtime 0) (0%nat, 0%nat)) e
                  ltac:(split; [discriminate|reflexivity])
                  ltac:(vm_compute; reflexivity)
                  E) as (Hc & Hd & _).
    assert (MarketData.days_elapsed (market_data e) = 366) as Hd'.
    { rewrite Hd. vm_compute. reflexivity. }
    split; [exact Hc|]. split; [exact Hd'|].
    destruct Hc as [_ Hy]. rewrite Hy, Hd'. reflexivity.
  - vm_compute in E. discriminate E.
Defined.

Lemma progressStory_block_advance R (e : PriceEngine R) :
  0 <= current_arc_index e <= last_arc_index ->
  current_arc_index (progressStory_block R e) <> current_arc_index e ->
  current_arc_index (progressStory_block R e) = current_arc_index e + 1
  /\ current_arc_index e < last_arc_index
  /\ market_data (progressStory_block R e)
     = MarketData.set_major_event_active
         (MarketData.set_current_arc (market_data e)
            (vector_index story_arcs (current_arc_index e + 1))) true.
Proof.
  intros Hi Hne. rewrite last_arc_index_value in *.
  destruct (progressStory_block_cases R e) as [E|[Hlt E]].
  - rewrite E in Hne. contradiction.
  - destruct (wrap_int_next _ Hlt) as [Ew Hr].
    rewrite to_size_t_small in * by lia.
    rewrite E. engine_simpl. rewrite Ew. repeat split; try reflexivity. lia.
Qed.

Lemma step_arc_consistent R (e e' : PriceEngine R) ev :
  arc_consistent e -> step R e ev = Some e' -> arc_consistent e'.
Proof.
  intros [Hi Ha] Hstep. unfold arc_consistent.
  pose proof (progressStory_block_index R e Hi) as Hidx.
  destruct (finish_iteration_frame R 0 e) as (_ & Hf1 & Hf2 & _).
  destruct ev; cbn [step] in Hstep; step_cases Hstep; engine_simpl;
    try (split; assumption).
  - destruct (finish_iteration_frame R now e) as (_ & E1 & E2 & _).
    rewrite E1, E2. split; assumption.
  - split; [lia|].
    destruct (Z.eq_dec (current_arc_index (progressStory_block R e)) (current_arc_index e))
      as [Heq|Hne].
    + destruct (progressStory_block_cases R e) as [E|[Hlt E]].
      * rewrite E. exact Ha.
      * exfalso. rewrite E in Heq. engine_simpl.
        rewrite last_arc_index_value in *.
        destruct (wrap_int_next _ Hlt) as [Ew Hr].
        rewrite to_size_t_small in * by lia. lia.
    + destruct (progressStory_block_advance R e Hi Hne) as (E1 & _ & E2).
      rewrite E1, E2. reflexivity.
Qed.

(** In every state reached from a fresh engine the arc index is a position
    of the arc table and the current arc of the market data is the arc at
    that position. *)
Theorem current_arc_is_the_indexed_arc (R : Runtime) :
  forall evs (e0 e : PriceEngine R),
    fresh e0 -> run R evs e0 = Some e -> arc_consistent e.
Proof.
  intros evs e0 e Hf.
  assert (arc_consistent e0) as H0.
  { destruct Hf as (_ & _ & _ & _ & _ & Hi & Ha & _). unfold arc_consistent.
    rewrite Hi, Ha, last_arc_index_value. split; [lia|reflexivity]. }
  clear Hf. revert e0 H0.
  induction evs as [|ev evs IH]; intros e0 H0 Hrun; cbn [run] in Hrun.
  - apply Some_eq in Hrun. subst. exact H0.
  - destruct (step R e0 ev) as [e1|] eqn:E1; [|discriminate].
    eapply IH; [|exact Hrun]. eapply step_arc_consistent; eassumption.
Qed.

Lemma main_engine_fresh R seed : fresh (main_engine R seed).
Proof. unfold fresh. cbn. repeat split. Qed.

Lemma current_arc_is_the_indexed_arc_witness :
  match run (scripted_runtime 0) (hundred_days ++ [EStoryBlock])
          (main_engine (scripted_runtime 0) (0%nat, 0%nat)) with
  | Some e => arc_consistent e
  | None => False
  end.
Proof.
  destruct (run _ _ _) as [e|] eqn:E.
  - apply (current_arc_is_the_indexed_arc (scripted_runtime 0)
             (hundred_days ++ [EStoryBlock])
             (main_engine (scripted_runtime 0) (0%nat, 0%nat)) e).
    + apply main_engine_fresh.
    + exact E.
  - vm_compute in E. discriminate E.
Defined.

(** The locked block of the story thread: it changes nothing unless the day
    counter is a positive multiple of 100 and the index is before the last
    position; then it moves the index by exactly one, sets the current arc
    to the arc at the new index and sets the active-event flag, and leaves
    everything else as it was. *)
Theorem progressStory_block_behaviour (R : Runtime) (e : PriceEngine R) :
  0 <= current_arc_index e <= last_arc_index ->
  (MarketData.days_elapsed (market_data e) <= 0 -> progressStory_block R e = e)
  /\ (Z.rem (MarketData.days_elapsed (market_data e)) 100 <> 0 ->
      progressStory_block R e = e)
  /\ (current_arc_index e = last_arc_index -> progressStory_block R e = e)
  /\ (0 < MarketData.days_elapsed (market_data e) ->
      Z.rem (MarketData.days_elapsed (market_data e)) 100 = 0 ->
      current_arc_index e < last_arc_index ->
      progressStory_block R e
      = with_market_data R (with_arc_index R e (current_arc_index e + 1))
          (MarketData.set_major_event_active
             (MarketData.set_current_arc (market_data e)
                (vector_index story_arcs (current_arc_index e + 1))) true)).
Proof.
  intros Hi. rewrite last_arc_index_value in *.
  unfold progressStory_block. fold last_arc_index. rewrite last_arc_index_value.
  rewrite (to_size_t_small (current_arc_index e)) by lia.
  rewrite (to_size_t_small 11) by lia.
  split; [|split; [|split]].
  - intros Hd. assert ((MarketData.days_elapsed (market_data e) >? 0) = false) as ->.
    { rewrite Z.gtb_ltb. apply Z.ltb_ge. exact Hd. }
    reflexivity.
  - intros Hr. apply Z.eqb_neq in Hr. rewrite Hr, andb_false_r. reflexivity.
  - intros ->. rewrite Z.ltb_irrefl. destruct (_ && _)%bool; reflexivity.
  - intros Hd Hr Hlt.
    assert ((MarketData.days_elapsed (market_data e) >? 0) = true) as ->.
    { rewrite Z.gtb_ltb. apply Z.ltb_lt. exact Hd. }
    apply Z.eqb_eq in Hr. rewrite Hr. cbn [andb].
    apply Z.ltb_lt in Hlt. rewrite Hlt.
    rewrite wrap_int_small by (apply Z.ltb_lt in Hlt; lia). reflexivity.
Qed.

Lemma finish_iteration_threads R now (e : PriceEngine R) :
  characters (finish_iteration R now e) = characters e
  /\ running (finish_iteration R now e) = running e
  /\ calculation_thread (finish_iteration R now e) = calculation_thread e
  /\ story_progression_thread (finish_iteration R now e) = story_progression_thread e
  /\ caller (finish_iteration R now e) = caller e.
Proof.
  destruct (finish_iteration_frame R now e) as (H1 & _ & _ & H2 & H3 & H4 & H5).
  repeat split; assumption.
Qed.

Lemma progressStory_block_threads R (e : PriceEngine R) :
  characters (progressStory_block R e) = characters e
  /\ running (progressStory_block R e) = running e
  /\ calculation_thread (progressStory_block R e) = calculation_thread e
  /\ story_progression_thread (progressStory_block R e) = story_progression_thread e
  /\ caller (progressStory_block R e) = caller e.
Proof.
  destruct (progressStory_block_cases R e) as [E|[_ E]]; rewrite E; repeat split.
Qed.

Ltac threads_frame R e :=
  repeat match goal with
  | |- context [finish_iteration R ?now e] =>
      let F1 := fresh in let F2 := fresh in let F3 := fresh in
      let F4 := fresh in let F5 := fresh in
      destruct (finish_iteration_threads R now e) as (F1 & F2 & F3 & F4 & F5);
      rewrite ?F1, ?F2, ?F3, ?F4, ?F5; clear F1 F2 F3 F4 F5
  | |- context [progressStory_block R e] =>
      let F1 := fresh in let F2 := fresh in let F3 := fresh in
      let F4 := fresh in let F5 := fresh in
      destruct (progressStory_block_threads R e) as (F1 & F2 & F3 & F4 & F5);
      rewrite ?F1, ?F2, ?F3, ?F4, ?F5; clear F1 F2 F3 F4 F5
  end.

Lemma step_threads_consistent R (e e' : PriceEngine R) ev :
  threads_consistent e -> step R e ev = Some e' -> threads_consistent e'.
Proof.
  unfold threads_consistent, threads_stopped.
  intros (H1 & H2 & H3 & H4 & H5) Hstep.
  destruct (caller e) eqn:Ec, (running e) eqn:Er,
           (calculation_thread e) as [| |k| |] eqn:Et,
           (story_progression_thread e) as [| |k'| |] eqn:Es;
    cbn [joinable negb andb] in *;
    destruct ev; cbn [step] in Hstep;
    rewrite ?Ec, ?Er, ?Et, ?Es in Hstep;
    cbn [joinable orb holds_mutex] in Hstep;
    step_cases Hstep;
    engine_simpl; threads_frame R e; engine_simpl;
    rewrite ?length_replace_nth, ?Ec, ?Er, ?Et, ?Es;
    cbn [joinable negb andb];
    (split; [|split; [|split; [|split]]]);
    try (intros; discriminate);
    try (intros; reflexivity);
    try (intros; congruence);
    try (intros; split; reflexivity);
    try (exfalso; first [discriminate (H3 ltac:(discriminate))
                        | discriminate (H2 eq_refl)
                        | discriminate (H1 eq_refl eq_refl)
                        | destruct (H5 eq_refl); discriminate]).
  all: try (intros k0 Hk; apply Some_eq in Hk || injection Hk as Hk; subst;
            first [apply H4; reflexivity | lia]).
  all: intros k0 Hk; injection Hk as <-;
    match goal with
    | H : nth_error ?l ?n = Some _ |- _ =>
        assert (n < List.length l)%nat by (apply nth_error_Some; congruence); lia
    end.
Qed.

Lemma run_threads_consistent R evs : forall (e e' : PriceEngine R),
  threads_consistent e -> run R evs e = Some e' -> threads_consistent e'.
Proof.
  induction evs as [|ev evs IH]; intros e e' H Hrun; cbn [run] in Hrun.
  - apply Some_eq in Hrun. subst. exact H.
  - destruct (step R e ev) as [e1|] eqn:E1; [|discriminate].
    eapply IH; [|exact Hrun]. eapply step_threads_consistent; eassumption.
Qed.

Lemma fresh_threads_consistent R (e : PriceEngine R) :
  fresh e -> threads_consistent e.
Proof.
  intros (Hr & Hc & Ht & Hs & _). unfold threads_consistent, threads_stopped.
  rewrite Hr, Hc, Ht, Hs. cbn.
  repeat split; intros; try discriminate; try congruence.
Qed.

(** In every state reached from a fresh engine, [startPriceCalculation]
    called by an idle caller returns normally: it never assigns to a
    joinable thread.  It leaves a running engine as it is, and otherwise
    sets [running] and starts both loops. *)
Theorem start_never_calls_terminate (R : Runtime) :
  forall evs (e0 e : PriceEngine R),
    fresh e0 -> run R evs e0 = Some e -> caller e = Idle ->
    exists e', step R e EStart = Some e'
               /\ running e' = true
               /\ joinable (calculation_thread e') = true
               /\ joinable (story_progression_thread e') = true
               /\ (running e = true -> e' = e).
Proof.
  intros evs e0 e Hf Hrun Hc.
  pose proof (run_threads_consistent R evs e0 e (fresh_threads_consistent R e0 Hf) Hrun)
    as (H1 & _ & _ & _ & H5).
  cbn [step]. rewrite Hc.
  destruct (running e) eqn:Er.
  - exists e. destruct (H5 eq_refl) as [Hj1 Hj2]. repeat split; auto.
  - specialize (H1 Hc eq_refl). unfold threads_stopped in H1.
    apply andb_true_iff in H1. destruct H1 as [Hj1 Hj2].
    apply negb_true_iff in Hj1, Hj2. rewrite Hj1, Hj2. cbn [orb].
    eexists. split; [reflexivity|]. cbn. repeat split. intros; discriminate.
Qed.

Lemma start_never_calls_terminate_witness :
  match run (scripted_runtime 1) (tick_then_stop ++ [EResetEvent])
          (main_engine (scripted_runtime 1) (0%nat, 0%nat)) with
  | Some e =>
      exists e', step (scripted_runtime 1) e EStart = Some e'
                 /\ running e' = true
                 /\ joinable (calculation_thread e') = true
                 /\ joinable (story_progression_thread e') = true
                 /\ (running e = true -> e' = e)
  | None => False
  end.
Proof.
  destruct (run _ _ _) as [e|] eqn:E.
  - apply (start_never_calls_terminate (scripted_runtime 1) (tick_then_stop ++ [EResetEvent])
             (main_engine (scripted_runtime 1) (0%nat, 0%nat)) e).
    + apply main_engine_fresh.
    + exact E.
    + vm_compute in E. apply Some_eq in E. subst e. reflexivity.
  - vm_compute in E. discriminate E.
Defined.

(** *** Shutdown can always complete *)

Lemma run_remaining_characters R m : forall (e : PriceEngine R) k,
  calculation_thread e = Body k ->
  (k + m = List.length (characters e))%nat ->
  exists e1, run R (repeat (ECalcCharacter 0) m) e = Some e1
             /\ calculation_thread e1 = Body (k + m)
             /\ List.length (characters e1) = List.length (characters e)
             /\ running e1 = running e
             /\ story_progression_thread e1 = story_progression_thread e
             /\ caller e1 = caller e.
Proof.
  induction m as [|m IH]; intros e k Ht Hk.
  - exists e. cbn [repeat run]. rewrite Nat.add_0_r. repeat split; auto.
  - cbn [repeat run step]. rewrite Ht.
    destruct (nth_error (characters e) k) as [c|] eqn:En.
    + destruct (update_character R (market_data e) 0 c (gen e)) as [c' g'].
      set (e1 := with_calculation_thread R
                   (with_gen R (with_characters R e (replace_nth k c' (characters e))) g')
                   (Body (S k))).
      destruct (IH e1 (S k)) as (e2 & Hr & H1 & H2 & H3 & H4 & H5).
      * reflexivity.
      * subst e1. cbn. rewrite length_replace_nth. lia.
      * exists e2. split; [exact Hr|].
        subst e1. cbn in H2, H3, H4, H5. rewrite length_replace_nth in H2.
        replace (k + S m)%nat with (S k + m)%nat by lia. repeat split; assumption.
    + exfalso. apply nth_error_None in En. lia.
Qed.

Lemma drain_calculation_runs R (e : PriceEngine R) :
  running e = false ->
  (forall k, calculation_thread e = Body k -> (k <= List.length (characters e))%nat) ->
  exists e1, run R (drain_calculation e) e = Some e1
             /\ thread_done (calculation_thread e1) = true
             /\ running e1 = false
             /\ story_progression_thread e1 = story_progression_thread e
             /\ caller e1 = caller e.
Proof.
  intros Hr Hk. unfold drain_calculation.
  destruct (calculation_thread e) as [| |k| |] eqn:Et.
  - exists e. cbn [run]. rewrite Et. repeat split; auto.
  - eexists. cbn [run step]. rewrite Et, Hr. split; [reflexivity|].
    cbn. repeat split; auto.
  - specialize (Hk k eq_refl).
    destruct (run_remaining_characters R (List.length (characters e) - k) e k Et ltac:(lia))
      as (e1 & Hrun & H1 & H2 & H3 & H4 & H5).
    rewrite run_app, Hrun. cbn [run step]. rewrite H1.
    replace (k + (List.length (characters e) - k))%nat
      with (List.length (characters e1)) by lia.
    rewrite Nat.eqb_refl.
    destruct (finish_iteration_threads R 0 e1) as (_ & F2 & _ & F4 & F5).
    cbn [calculation_thread with_calculation_thread running].
    rewrite F2, H3, Hr.
    eexists. split; [reflexivity|]. cbn.
    rewrite F2, F4, F5, H3, H4, H5. repeat split; auto.
  - exists e. cbn [run]. rewrite Et. repeat split; auto.
  - exists e. cbn [run]. rewrite Et. repeat split; auto.
Qed.

Lemma drain_story_runs R (e : PriceEngine R) l :
  running e = false ->
  thread_done (calculation_thread e) = true ->
  l = match story_progression_thread e with
      | LoopHead => [EStoryLoop]
      | Body _ => [EStoryBlock; EStoryLoop]
      | _ => []
      end ->
  exists e1, run R l e = Some e1
             /\ thread_done (story_progression_thread e1) = true
             /\ calculation_thread e1 = calculation_thread e
             /\ running e1 = false
             /\ caller e1 = caller e.
Proof.
  intros Hr Hd ->.
  destruct (story_progression_thread e) as [| |k| |] eqn:Es.
  - exists e. cbn [run]. rewrite Es. repeat split; auto.
  - eexists. cbn [run step]. rewrite Es, Hr. split; [reflexivity|].
    cbn. repeat split; auto.
  - cbn [run step]. rewrite Es.
    assert (holds_mutex (calculation_thread e) = false) as ->.
    { destruct (calculation_thread e); try discriminate; reflexivity. }
    destruct (progressStory_block_threads R e) as (_ & P2 & P3 & _ & P5).
    cbn [story_progression_thread with_story_thread running]. rewrite P2, Hr.
    eexists. split; [reflexivity|]. cbn. rewrite P2, P3, P5. repeat split; auto.
  - exists e. cbn [run]. rewrite Es. repeat split; auto.
  - exists e. cbn [run]. rewrite Es. repeat split; auto.
Qed.

Lemma joins_run R (e : PriceEngine R) :
  caller e = JoiningCalculation ->
  thread_done (calculation_thread e) = true ->
  thread_done (story_progression_thread e) = true ->
  exists e', run R [EStopJoinCalculation; EStopJoinStory] e = Some e'
             /\ threads_stopped e' = true
             /\ running e' = running e
             /\ caller e' = Idle
             /\ characters e' = characters e.
Proof.
  intros Hc Hd1 Hd2. cbn [run step]. rewrite Hc.
  destruct (calculation_thread e) eqn:Et; try discriminate Hd1;
  destruct (story_progression_thread e) eqn:Es; try discriminate Hd2;
    cbn; rewrite ?Es, ?Et; cbn;
    eexists; (split; [reflexivity|]); unfold threads_stopped; cbn;
    rewrite ?Es, ?Et; cbn; repeat split; reflexivity.
Qed.

Lemma run_length R evs : forall (e e' : PriceEngine R),
  run R evs e = Some e' -> List.length (characters e') = List.length (characters e).
Proof.
  induction evs as [|ev evs IH]; intros e e' Hrun; cbn [run] in Hrun.
  - apply Some_eq in Hrun. subst. reflexivity.
  - destruct (step R e ev) as [e1|] eqn:E1; [|discriminate].
    rewrite (IH e1 e' Hrun). symmetry. eapply Forall2_length.
    eapply step_characters_frame. exact E1.
Qed.

(** From every state reached from a fresh engine with the caller idle,
    [stopPriceCalculation] can run to its return: each loop finishes the
    iteration it is in and leaves, both joins succeed, and the registry has
    as many characters as before. *)
Theorem shutdown_can_complete (R : Runtime) :
  forall evs (e0 e : PriceEngine R),
    fresh e0 -> run R evs e0 = Some e -> caller e = Idle ->
    exists e', run R (stop_events e) e = Some e'
               /\ threads_stopped e' = true
               /\ running e' = false
               /\ caller e' = Idle
               /\ List.length (characters e') = List.length (characters e).
Proof.
  intros evs e0 e Hf Hrun Hc.
  pose proof (run_threads_consistent R evs e0 e (fresh_threads_consistent R e0 Hf) Hrun)
    as (_ & _ & _ & H4 & _).
  unfold stop_events. cbn [run step]. rewrite Hc.
  set (e1 := with_caller R (with_running R e false) JoiningCalculation).
  change (drain_calculation e) with (drain_calculation e1).
  destruct (drain_calculation_runs R e1 eq_refl H4) as (e2 & R2 & D2 & Hr2 & Hs2 & Hc2).
  destruct (drain_story_runs R e2 (drain_story e) Hr2 D2) as (e3 & R3 & D3 & Ht3 & Hr3 & Hc3).
  { unfold drain_story. rewrite Hs2. reflexivity. }
  destruct (joins_run R e3) as (e4 & R4 & S4 & Hr4 & Hc4 & Hl4).
  { rewrite Hc3, Hc2. reflexivity. }
  { rewrite Ht3. exact D2. }
  { exact D3. }
  exists e4. rewrite run_app, R2, run_app, R3, R4.
  split; [reflexivity|]. split; [exact S4|]. split; [congruence|]. split; [exact Hc4|].
  rewrite Hl4.
  transitivity (List.length (characters e2)).
  - eapply run_length. exact R3.
  - transitivity (List.length (characters e1)); [eapply run_length; exact R2|reflexivity].
Qed.

Lemma shutdown_can_complete_witness :
  match run (scripted_runtime 1)
          [EStart; ECalcLoop; ECalcCharacter 1; ECalcCharacter 2; EStoryLoop]
          (main_engine (scripted_runtime 1) (0%nat, 0%nat)) with
  | Some e =>
      exists e', run (scripted_runtime 1) (stop_events e) e = Some e'
                 /\ threads_stopped e' = true
                 /\ running e' = false
                 /\ caller e' = Idle
                 /\ List.length (characters e') = List.length (characters e)
  | None => False
  end.
Proof.
  destruct (run _ _ _) as [e|] eqn:E.
  - apply (shutdown_can_complete (scripted_runtime 1)
             [EStart; ECalcLoop; ECalcCharacter 1; ECalcCharacter 2; EStoryLoop]
             (main_engine (scripted_runtime 1) (0%nat, 0%nat)) e).
    + apply main_engine_fresh.
    + exact E.
    + vm_compute in E. apply Some_eq in E. subst e. reflexivity.
  - vm_compute in E. discriminate E.
Defined.

(** *** findCharacter *)

Lemma find_if_id_spec id cs : forall k,
  match find_if_id id cs k with
  | Some j =>
      (k <= j)%nat
      /\ exists c, nth_error cs (j - k) = Some c
                   /\ Character.id c = id
                   /\ forall i c', (i < j - k)%nat -> nth_error cs i = Some c' ->
                                   Character.id c' <> id
  | None => forall c, In c cs -> Character.id c <> id
  end.
Proof.
  induction cs as [|c cs IH]; intros k; cbn [find_if_id].
  - intros c [].
  - destruct (Character.id c =? id) eqn:E.
    + apply Z.eqb_eq in E. split; [lia|]. exists c. rewrite Nat.sub_diag.
      split; [reflexivity|]. split; [exact E|]. intros i c' Hi. lia.
    + apply Z.eqb_neq in E. specialize (IH (S k)).
      destruct (find_if_id id cs (S k)) as [j|].
      * destruct IH as (Hj & c0 & Hn & Hid & Hfirst).
        split; [lia|]. exists c0.
        replace (j - k)%nat with (S (j - S k)) by lia.
        split; [exact Hn|]. split; [exact Hid|].
        intros i c' Hi Hc'. destruct i as [|i]; cbn [nth_error] in Hc'.
        -- apply Some_eq in Hc'. subst c'. exact E.
        -- apply (Hfirst i c'); [lia|exact Hc'].
      * intros c' [<-|Hin]; [exact E|]. apply IH. exact Hin.
Qed.

(** [findCharacter] returns the position of the first character with the
    identifier asked for, and the null pointer exactly when no character of
    the registry has that identifier. *)
Theorem findCharacter_first_match (R : Runtime) (e : PriceEngine R) (id : Z) :
  match findCharacter e id with
  | Some j =>
      exists c, nth_error (characters e) j = Some c
                /\ Character.id c = id
                /\ forall i c', (i < j)%nat -> nth_error (characters e) i = Some c' ->
                                Character.id c' <> id
  | None => forall c, In c (characters e) -> Character.id c <> id
  end.
Proof.
  unfold findCharacter. pose proof (find_if_id_spec id (characters e) 0%nat) as H.
  destruct (find_if_id id (characters e) 0) as [j|]; [|exact H].
  destruct H as (_ & c & Hn & Hid & Hfirst). rewrite Nat.sub_0_r in *.
  exists c. repeat split; assumption.
Qed.

Lemma find_if_id_ids id cs : forall cs' k,
  map Character.id cs = map Character.id cs' ->
  find_if_id id cs k = find_if_id id cs' k.
Proof.
  induction cs as [|c cs IH]; intros [|c' cs'] k H; cbn [map] in H; try discriminate.
  - reflexivity.
  - injection H as Hc Hcs. cbn [find_if_id]. rewrite Hc, (IH cs' (S k) Hcs). reflexivity.
Qed.

Lemma step_ids R (e e' : PriceEngine R) ev :
  step R e ev = Some e' ->
  map Character.id (characters e') = map Character.id (characters e).
Proof.
  intros Hstep. pose proof (step_characters_frame R e e' ev Hstep) as H.
  induction H as [|c c' cs cs' Hc _ IH]; [reflexivity|].
  cbn [map]. rewrite IH. destruct Hc as (-> & _). reflexivity.
Qed.

(** Whatever the engine does, [findCharacter] keeps returning the same
    position for the same identifier. *)
Theorem findCharacter_stable (R : Runtime) :
  forall evs (e e' : PriceEngine R) id,
    run R evs e = Some e' -> findCharacter e' id = findCharacter e id.
Proof.
  induction evs as [|ev evs IH]; intros e e' id Hrun; cbn [run] in Hrun.
  - apply Some_eq in Hrun. subst. reflexivity.
  - destruct (step R e ev) as [e1|] eqn:E1; [|discriminate].
    rewrite (IH e1 e' id Hrun). unfold findCharacter.
    apply find_if_id_ids. eapply step_ids. exact E1.
Qed.

Lemma findCharacter_stable_witness :
  match run (scripted_runtime 1) (EStart :: tick_events 17 ++ tick_events 17)
          (main_engine (scripted_runtime 1) (0%nat, 0%nat)) with
  | Some e => findCharacter e 11 = Some 10%nat /\ findCharacter e 18 = None
  | None => False
  end.
Proof.
  destruct (run _ _ _) as [e|] eqn:E.
  - rewrite !(findCharacter_stable (scripted_runtime 1) _ _ e _ E).
    split; reflexivity.
  - vm_compute in E. discriminate E.
Defined.

(** *** The deactivation threads *)

Lemma finish_iteration_pending R now (e : PriceEngine R) :
  (pending_resets e <= pending_resets (finish_iteration R now e) <= S (pending_resets e))%nat.
Proof.
  unfold finish_iteration, triggerMajorEvent.
  destruct (event_chance R (gen e)) as [x g'].
  destruct (x <? 0.1)%float; cbn.
  - destruct (gen_call R g') as [n g'']. cbn. lia.
  - lia.
Qed.

Lemma progressStory_block_pending R (e : PriceEngine R) :
  pending_resets (progressStory_block R e) = pending_resets e.
Proof.
  destruct (progressStory_block_cases R e) as [E|[_ E]]; rewrite E; reflexivity.
Qed.

Lemma step_pending R (e e' : PriceEngine R) ev :
  step R e ev = Some e' ->
  (pending_resets e' + resets_fired [ev]
   <= pending_resets e + ticks_completed [ev])%nat.
Proof.
  intros Hstep.
  destruct ev; cbn [step] in Hstep; step_cases Hstep; engine_simpl;
    unfold resets_fired, ticks_completed; cbn [filter List.length];
    rewrite ?progressStory_block_pending; try lia.
  pose proof (finish_iteration_pending R now e). lia.
Qed.

Lemma count_cons (f : event -> bool) ev evs :
  List.length (filter f (ev :: evs))
  = (List.length (filter f [ev]) + List.length (filter f evs))%nat.
Proof. cbn [filter]. destruct (f ev); reflexivity. Qed.

(** Deactivation threads only come from the Event Trigger, at most one per
    completed iteration of the price loop: those that have woken and those
    still pending never outnumber the completed iterations (and the threads
    pending at the start). *)
Theorem resets_come_from_iterations (R : Runtime) :
  forall evs (e e' : PriceEngine R),
    run R evs e = Some e' ->
    (pending_resets e' + resets_fired evs
     <= pending_resets e + ticks_completed evs)%nat.
Proof.
  induction evs as [|ev evs IH]; intros e e' Hrun; cbn [run] in Hrun.
  - apply Some_eq in Hrun. subst. cbn. lia.
  - destruct (step R e ev) as [e1|] eqn:E1; [|discriminate].
    pose proof (step_pending R e e1 ev E1) as H1.
    pose proof (IH e1 e' Hrun) as H2.
    unfold resets_fired, ticks_completed in *.
    rewrite (count_cons _ ev evs), (count_cons _ ev evs). lia.
Qed.

Lemma resets_come_from_iterations_witness :
  match run (scripted_runtime 3) late_reset
          (main_engine (scripted_runtime 3) (0%nat, 0%nat)) with
  | Some e => (pending_resets e + 1 <= 0 + 12)%nat
  | None => False
  end.
Proof.
  destruct (run _ _ _) as [e|] eqn:E.
  - apply (resets_come_from_iterations (scripted_runtime 3) late_reset _ e E).
  - vm_compute in E. discriminate E.
Defined.

Lemma getStoryMultiplier_in_table md c :
  In (MarketData.current_arc md) story_arcs ->
  (1.0 <=? getStoryMultiplier md c)%float = true
  /\ (getStoryMultiplier md c <=? 12.0)%float = true.
Proof.
  intros H. unfold getStoryMultiplier.
  unfold story_arcs in H. cbn [In] in H.
  repeat (destruct H as [H|H]; [rewrite <- H; clear H|]); [..|contradiction];
    cbn [story_arc_multipliers map_index String.eqb Ascii.eqb Bool.eqb andb];
    repeat match goal with
    | |- context [String.eqb (Character.name c) ?s] =>
        destruct (String.eqb (Character.name c) s)
    end; split; reflexivity.
Qed.

Lemma eqb_not_in_table arc s :
  ~ In arc story_arcs -> In s story_arcs ->
  String.eqb s arc = false /\ String.eqb arc s = false.
Proof.
  intros Hn Hs. split; apply String.eqb_neq; intros E; subst; contradiction.
Qed.

Lemma getStoryMultiplier_missing md c :
  ~ In (MarketData.current_arc md) story_arcs ->
  getStoryMultiplier md c = 0.0%float.
Proof.
  intros Hn. unfold getStoryMultiplier, story_arc_multipliers. cbn [map_index].
  repeat match goal with
  | |- context [String.eqb ?a (MarketData.current_arc md)] =>
      rewrite (proj1 (eqb_not_in_table _ a Hn ltac:(cbn; tauto)))
  | |- context [String.eqb (MarketData.current_arc md) ?a] =>
      rewrite (proj2 (eqb_not_in_table _ a Hn ltac:(cbn; tauto)))
  end.
  reflexivity.
Qed.

(** The arc multiplier lies between 1 and 12 for every character under
    every arc of the table; under an arc name that is not in the table it is
    0.0, the value [operator[]] gives a missing key. *)
Theorem arc_multiplier_bounds md c :
  (In (MarketData.current_arc md) story_arcs ->
   (1.0 <=? getStoryMultiplier md c)%float = true
   /\ (getStoryMultiplier md c <=? 12.0)%float = true)
  /\ (~ In (MarketData.current_arc md) story_arcs ->
      getStoryMultiplier md c = 0.0%float).
Proof.
  split; [apply getStoryMultiplier_in_table|apply getStoryMultiplier_missing].
Qed.

Lemma arc_multiplier_bounds_witness :
  getStoryMultiplier (MarketData.set_current_arc (MarketData.new 0) "Egghead Arc")
    (Character.new 1 "Monkey D. Luffy" "Straw Hat Pirates" 3000000000 0.15 0)
  = 0.0%float
  /\ (1.0 <=? getStoryMultiplier
                 (MarketData.set_current_arc (MarketData.new 0%Z) "Wano Country Saga")
                 (Character.new 11%Z "Kaido" "Beast Pirates" 4611100000%Z 0.20 0%Z))%float
     = true.
Proof.
  split.
  - apply (proj2 (arc_multiplier_bounds _ _)). cbn.
    intros H. repeat (destruct H as [H|H]; [discriminate H|]). exact H.
  - apply (proj1 (arc_multiplier_bounds _ _)). cbn. tauto.
Defined.

(** *** The total of the market summary *)

Lemma binary_round_aux_nonnegative mx ex lx :
  0 <= mx -> nonnegative (binary_round_aux prec emax false mx ex lx).
Proof.
  intros Hm. unfold binary_round_aux.
  destruct (shr_fexp_bound mx ex lx Hm) as [[H1 _] _].
  destruct (shr_fexp prec emax mx ex lx) as [mrs' e'] eqn:E1. cbn [fst] in H1.
  pose proof (round_nearest_even_bound (shr_m mrs') (loc_of_shr_record mrs')) as Hr.
  set (m1 := round_nearest_even (shr_m mrs') (loc_of_shr_record mrs')) in *.
  assert (0 <= m1) as Hm1 by lia.
  destruct (shr_fexp_bound m1 e' loc_Exact Hm1) as [[H4 _] _].
  destruct (shr_fexp prec emax m1 e' loc_Exact) as [mrs'' e''] eqn:E2. cbn [fst] in H4.
  destruct (shr_m mrs'') as [|m|m].
  - exact I.
  - destruct (e'' <=? emax - prec); reflexivity.
  - lia.
Qed.

Lemma SFmul_nonnegative x y :
  nonnegative x -> nonnegative y ->
  is_nanb (SFmul prec emax x y) = false ->
  nonnegative (SFmul prec emax x y).
Proof.
  destruct x as [sx|sx| |sx mx ex], y as [sy|sy| |sy my ey];
    cbn [nonnegative]; intros Hx Hy Hn; try contradiction; subst;
    try exact I; try reflexivity; try discriminate Hn.
  rewrite SFmul_finite. cbn [xorb]. apply binary_round_aux_nonnegative. lia.
Qed.

Lemma binary_round_nonnegative m e :
  nonnegative (binary_round prec emax false m e).
Proof.
  unfold binary_round.
  destruct (shl_align m e (fexp prec emax (Zpos (digits2_pos m) + e))) as [mz ez].
  apply binary_round_aux_nonnegative. lia.
Qed.

Lemma SFadd_nonnegative x y :
  nonnegative x -> nonnegative y -> nonnegative (SFadd prec emax x y).
Proof.
  destruct x as [sx|sx| |sx mx ex], y as [sy|sy| |sy my ey];
    cbn [nonnegative]; intros Hx Hy; try contradiction; subst;
    try exact I; try reflexivity.
  - cbn. destruct sx, sy; exact I.
  - cbn [SFadd cond_Zopp].
    set (X := Zpos (fst (shl_align mx ex (Z.min ex ey)))).
    set (Y := Zpos (fst (shl_align my ey (Z.min ex ey)))).
    assert (0 < X + Y) as Hpos by (unfold X, Y; lia).
    unfold binary_normalize.
    destruct (X + Y) as [|m|m]; try lia.
    apply binary_round_nonnegative.
Qed.

Lemma nonnegative_leb x : nonnegative x -> SFleb (S754_zero false) x = true.
Proof.
  destruct x as [s|s| |s m e]; cbn [nonnegative]; intros H; try contradiction; subst;
    reflexivity.
Qed.

Lemma leb_zero_nonnegative x : SFleb (S754_zero false) x = true -> nonnegative x.
Proof.
  unfold SFleb.
  destruct x as [s|s| |s m e]; cbn [nonnegative SFcompare]; try discriminate;
    try (destruct s; try discriminate; intros _; first [exact I|reflexivity]).
Qed.

Lemma price_ok_nonnegative p :
  price_ok p = true -> nonnegative (Prim2SF p) /\ fbound (-39) p.
Proof.
  unfold price_ok. intros H. apply orb_true_iff in H. destruct H as [H|H].
  - rewrite eqb_spec in H. unfold fbound.
    change (Prim2SF 0) with (S754_zero false) in H. unfold SFeqb in H.
    destruct (Prim2SF p) as [s|s| |s m e]; cbn [SFcompare] in H;
      try (destruct s; discriminate); try discriminate.
    split; exact I.
  - apply price_in_range_spec in H. destruct H as [H0 H1].
    assert ((0 <=? p)%float = true) as Hz.
    { eapply leb_trans; [|exact H0]. reflexivity. }
    split.
    + apply leb_zero_nonnegative. rewrite leb_spec in Hz. exact Hz.
    + eapply fbound_of_range; [|exact Hz|exact H1]. reflexivity.
Qed.

Lemma market_cap_fold_nonnegative cs : forall total,
  Forall (fun c => price_ok (Character.current_price c) = true) cs ->
  nonnegative (Prim2SF total) ->
  nonnegative
    (Prim2SF (fold_left (fun total c => (total + Character.current_price c * 1000000.0)%float)
                cs total)).
Proof.
  induction cs as [|c cs IH]; intros total Hcs Ht; cbn [fold_left].
  - exact Ht.
  - inversion Hcs as [|? ? Hc Hrest]; subst.
    apply IH; [exact Hrest|].
    destruct (price_ok_nonnegative _ Hc) as [Hn Hb].
    rewrite add_spec. apply SFadd_nonnegative; [exact Ht|].
    assert (fbound 971 (Character.current_price c * 1000000.0)%float) as Hf.
    { apply fbound_mul with (a := -39) (b := -33); [exact Hb| |lia|lia].
      unfold fbound. vm_compute. discriminate. }
    pose proof (fbound_not_nan _ _ Hf) as Hnn. rewrite is_nan_spec in Hnn.
    rewrite mul_spec in *. apply SFmul_nonnegative; [exact Hn| |exact Hnn].
    vm_compute. reflexivity.
Qed.

(** The total market capitalisation of the summary is never negative and
    never a NaN when every price is zero or within the clamp, however many
    characters the registry has. *)
Theorem total_market_cap_nonnegative (R : Runtime) (e : PriceEngine R) :
  Forall (fun c => price_ok (Character.current_price c) = true) (characters e) ->
  (0.0 <=? total_market_cap e)%float = true.
Proof.
  intros H. rewrite leb_spec. apply nonnegative_leb.
  unfold total_market_cap. apply market_cap_fold_nonnegative; [exact H|].
  exact I.
Qed.

Lemma total_market_cap_nonnegative_witness :
  (0.0 <=? total_market_cap
             (calculatePrices_iteration (scripted_runtime 0) (fun _ => 0%Z)
                (main_engine (scripted_runtime 0) (0%nat, 0%nat))))%float = true.
Proof.
  apply (total_market_cap_nonnegative (scripted_runtime 0)).
  apply Forall_forall. intros c Hc. vm_compute in Hc.
  repeat (destruct Hc as [<-|Hc]; [vm_compute; reflexivity|]). contradiction.
Defined.

Lemma iteration_events_run_the_iteration_witness :
  match step (scripted_runtime 1) (main_engine (scripted_runtime 1) (0%nat, 0%nat)) EStart with
  | Some e =>
      run (scripted_runtime 1) (iteration_events (fun k => Z.of_nat k) 17) e
      = Some (calculatePrices_iteration (scripted_runtime 1) (fun k => Z.of_nat k) e)
  | None => False
  end.
Proof.
  destruct (step _ _ _) as [e|] eqn:E.
  - vm_compute in E. apply Some_eq in E. subst e.
    cbv beta iota.
    match goal with |- run _ _ ?e = _ =>
      exact (iteration_events_run_the_iteration (scripted_runtime 1)
               (fun k => Z.of_nat k) e eq_refl eq_refl) end.
  - vm_compute in E. discriminate E.
Defined.

Lemma progressStory_block_behaviour_witness :
  match run (scripted_runtime 0) hundred_days
          (main_engine (scripted_runtime 0) (0%nat, 0%nat)) with
  | Some e =>
      progressStory_block (scripted_runtime 0) e
      = with_market_data (scripted_runtime 0)
          (with_arc_index (scripted_runtime 0) e (current_arc_index e + 1))
          (MarketData.set_major_event_active
             (MarketData.set_current_arc (market_data e)
                (vector_index story_arcs (current_arc_index e + 1))) true)
  | None => False
  end.
Proof.
  destruct (run _ _ _) as [e|] eqn:E.
  - vm_compute in E. apply Some_eq in E. subst e.
    apply (progressStory_block_behaviour (scripted_runtime 0)).
    + split; vm_compute; discriminate.
    + reflexivity.
    + reflexivity.
    + reflexivity.
  - vm_compute in E. discriminate E.
Defined.

(** *** loadCharacters *)

Lemma find_if_id_app id cs cs' : forall k j,
  find_if_id id cs k = Some j -> find_if_id id (cs ++ cs') k = Some j.
Proof.
  induction cs as [|c cs IH]; intros k j H; cbn [find_if_id app] in *.
  - discriminate.
  - destruct (Character.id c =? id); [exact H|]. apply IH. exact H.
Qed.

(** [loadCharacters] keeps the characters already loaded, in place, and
    adds seventeen after them, each with price and recorded change 0.0 and
    an ordinary configuration; an identifier that [findCharacter] found
    before is still found at the same position, so a character loaded twice
    is found in its first copy. *)
Theorem loadCharacters_keeps_registry (R : Runtime) clk (e : PriceEngine R) :
  (exists roster,
      characters (loadCharacters R clk e) = characters e ++ roster
      /\ List.length roster = 17%nat
      /\ Forall (fun c => Character.current_price c = 0.0%float
                          /\ Character.weekly_change c = 0.0%float
                          /\ sane_character c = true) roster)
  /\ (forall id j, findCharacter e id = Some j ->
                   findCharacter (loadCharacters R clk e) id = Some j)
  /\ market_data (loadCharacters R clk e) = market_data e
  /\ running (loadCharacters R clk e) = running e.
Proof.
  split; [|split; [|split; reflexivity]].
  - eexists. split; [reflexivity|]. split; [reflexivity|].
    repeat constructor.
  - intros id j H. unfold findCharacter, loadCharacters.
    cbn [characters with_characters]. apply find_if_id_app. exact H.
Qed.

Lemma loadCharacters_keeps_registry_witness :
  findCharacter
    (loadCharacters (scripted_runtime 0) (fun _ => 1)
       (main_engine (scripted_runtime 0) (0%nat, 0%nat))) 13
  = Some 12%nat.
Proof.
  apply (proj1 (proj2 (loadCharacters_keeps_registry (scripted_runtime 0) (fun _ => 1)
                         (main_engine (scripted_runtime 0) (0%nat, 0%nat))))).
  reflexivity.
Defined.

(** *** A second shutdown *)

(** [stopPriceCalculation] on an engine that is already stopped (not
    running, no loop thread left to join) returns without waiting and
    leaves the engine exactly as it was: a second call, as after the one in
    [main], is harmless. *)
Theorem stop_after_stop_is_identity (R : Runtime) (e : PriceEngine R) :
  threads_stopped e = true -> running e = false -> caller e = Idle ->
  run R [EStopBegin; EStopJoinCalculation; EStopJoinStory] e = Some e.
Proof.
  destruct e as [cs md run_ ct st g idx pend cl].
  unfold threads_stopped. cbn [calculation_thread story_progression_thread running caller].
  intros Hs -> ->. apply andb_true_iff in Hs. destruct Hs as [Hc Hst].
  destruct ct; try discriminate Hc; destruct st; try discriminate Hst; reflexivity.
Qed.

Lemma stop_after_stop_is_identity_witness :
  run (scripted_runtime 0) [EStopBegin; EStopJoinCalculation; EStopJoinStory]
      (main_engine (scripted_runtime 0) (0%nat, 0%nat))
  = Some (main_engine (scripted_runtime 0) (0%nat, 0%nat)).
Proof.
  apply (stop_after_stop_is_identity (scripted_runtime 0)); reflexivity.
Defined.
